(** * Text analytics aggregation engine (app/analytics/router.py)

    A shallow embedding of the analytics router of the review application:
    the normalizer ([count_letters], [extract_clean_words]), the lexicon
    word-frequency counter ([word_frequency]), the sentiment trend
    aggregation ([sentiment_trend]) and the rating/length correlation
    ([rating_length_correlation]).

    Conventions.
    - A Python string is the list of its Unicode code points ([str]).
    - The character tests and the case mapping that Python takes from the
      Unicode character database are the fields of the class [UnicodeData];
      the instance [latin1] gives them for U+0000..U+00FF, the range on
      which the functions are evaluated in this file.
    - A Python float is an IEEE 754 binary64 value, the primitive type
      [float]: its operations round as the processor does.  The polarity of
      a review and the means of a group are such values.
    - A table of the database is the list of its rows; a query is a filter
      over that list. *)

From Stdlib Require Import QArith Floats.
From stdpp Require Import base decidable numbers list strings gmap sorting.
From stdpp Require Import pretty.

Local Open Scope Z_scope.

(** ** Python strings *)

Notation codepoint := N (only parsing).
Notation str := (list codepoint) (only parsing).

(** The code points of an ASCII literal. *)
Fixpoint py_str (s : string) : str :=
  match s with
  | EmptyString => []
  | String a s' => Ascii.N_of_ascii a :: py_str s'
  end.

(** ** The Unicode character database, as Python sees it *)

Class UnicodeData := {
  (** [str.isalpha]: general category L*. *)
  isalpha : codepoint → bool;
  (** [str.isdecimal]: general category Nd. *)
  isdecimal : codepoint → bool;
  (** [str.isdigit]: numeric type Digit or Decimal. *)
  isdigit : codepoint → bool;
  (** [str.isnumeric]: any numeric type. *)
  isnumeric : codepoint → bool;
  (** [str.lower]. *)
  lower : str → str;
  (** A text written with the code points of a lower-cased text, and
      U+0020 SPACE, is in lower case. *)
  lower_stable : ∀ s t, t ⊆ 32%N :: lower s → lower t = t;
  (** U+0020 SPACE is neither a letter nor numeric. *)
  space_not_alnum :
    isalpha 32%N || isdecimal 32%N || isdigit 32%N || isnumeric 32%N = false;
}.

Section Normalizer.
Context `{UnicodeData}.

(** [\w] of the [re] module on [str] patterns: alphanumeric or underscore. *)
Definition isalnum (c : codepoint) : bool :=
  isalpha c || isdecimal c || isdigit c || isnumeric c.

Definition is_word (c : codepoint) : bool :=
  isalnum c || bool_decide (c = 95%N).

(** The character class [[^\W\d_]]: a word character that is neither a
    decimal digit ([\d]) nor the underscore. *)
Definition letter_class (c : codepoint) : bool :=
  is_word c && negb (isdecimal c) && negb (bool_decide (c = 95%N)).

(** [re.findall(r"[^\W\d_]", text)]: one match per matching code point. *)
Definition findall_letters (s : str) : list codepoint :=
  filter (λ c, letter_class c) s.

(** [re.search(r"[^\W\d_]", t)] as a truth value. *)
Definition search_letter (t : str) : bool :=
  bool_decide (Exists (λ c, letter_class c) t).

(** The number of letters of a text: the code points of general category
    L, those [str.isalpha] accepts. *)
Definition unicode_letters (s : str) : nat :=
  length (filter (λ c, isalpha c) s).

Definition count_letters (text : option str) : nat :=
  match text with
  | None | Some [] => 0%nat
  | Some s => length (findall_letters s)
  end.

(** The longest prefix of word characters: what a greedy [\w+] consumes. *)
Fixpoint word_run (s : str) : str :=
  match s with
  | [] => []
  | c :: s' => if is_word c then c :: word_run s' else []
  end.

(** [WORD_PATTERN.findall], for [WORD_PATTERN = \b\w+\b].  The scan goes
    left to right; [prev_word] tells whether the code point before the
    current position is a word character.  A match starts where [\b] holds
    before a word character, [\w+] takes the whole run, and the closing
    [\b] holds at the end of a run.  Inside a run no match starts. *)
Fixpoint findall_from (prev_word : bool) (s : str) : list str :=
  match s with
  | [] => []
  | c :: s' =>
      if is_word c && negb prev_word
      then (c :: word_run s') :: findall_from true s'
      else findall_from (is_word c) s'
  end.

Definition WORD_PATTERN_findall (s : str) : list str := findall_from false s.

Definition STOPWORDS : list str := py_str <$>
  [ "the"; "and"; "or"; "is"; "are"; "am"; "was"; "were";
    "be"; "been"; "being";
    "of"; "to"; "in"; "on"; "for"; "with"; "at"; "by"; "from";
    "this"; "that"; "these"; "those";
    "a"; "an"; "it"; "its"; "as"; "so"; "if"; "but";
    "very"; "really"; "just"; "also"; "too";
    "i"; "we"; "you"; "he"; "she"; "they"; "it";
    "me"; "us"; "him"; "her"; "them";
    "my"; "our"; "your"; "his"; "their";
    "hotel"; "room"; "rooms"; "place"; "stay"; "stayed";
    "location"; "area"; "night"; "nights"; "day"; "days";
    "dan"; "yang"; "di"; "ke"; "dari"; "itu"; "ini"; "untuk"; "dengan";
    "kami"; "kita"; "saya"; "aku"; "dia"; "mereka";
    "pada"; "ada"; "tidak"; "bukan" ]%string.

(** The body of the [for t in tokens] loop: [true] when [t] is appended. *)
Definition keep_token (t : str) : bool :=
  if negb (search_letter t) then false
  else if bool_decide (length t ≤ 2)%nat then false
  else if bool_decide (t ∈ STOPWORDS) then false
  else true.

(** A token as the loop keeps it: it passes the three tests and is a
    non-empty run of word characters. *)
Definition clean_token (t : str) : Prop :=
  keep_token t = true ∧ t ≠ [] ∧ Forall (λ c, is_word c = true) t.

Definition extract_clean_words (text : option str) : list str :=
  match text with
  | None | Some [] => []
  | Some s => filter (λ t, keep_token t) (WORD_PATTERN_findall (lower s))
  end.

End Normalizer.

(** ** The data model (app/models.py) *)

Record date := { d_year : Z; d_month : Z; d_day : Z }.

Record datetime := {
  year : Z; month : Z; day : Z;
  hour : Z; minute : Z; second : Z; microsecond : Z }.

(** A row of the table [reviews]; [None] is SQL NULL. *)
Record Review := {
  review_id : Z;
  rating : option Z;
  text : option str;
  review_date : option datetime;
  polarity : option float }.

(** Timestamps compare field by field, most significant first. *)
Fixpoint tuple_compare (a b : list Z) : comparison :=
  match a, b with
  | [], [] => Eq
  | [], _ :: _ => Lt
  | _ :: _, [] => Gt
  | x :: a', y :: b' =>
      match x ?= y with
      | Eq => tuple_compare a' b'
      | c => c
      end
  end.

Definition datetime_fields (d : datetime) : list Z :=
  [year d; month d; day d; hour d; minute d; second d; microsecond d].

Definition datetime_le (a b : datetime) : bool :=
  match tuple_compare (datetime_fields a) (datetime_fields b) with
  | Gt => false
  | _ => true
  end.

(** [datetime.combine(d, datetime.min.time())] and
    [datetime.combine(d, datetime.max.time())]. *)
Definition combine_min (d : date) : datetime :=
  {| year := d_year d; month := d_month d; day := d_day d;
     hour := 0; minute := 0; second := 0; microsecond := 0 |}.

Definition combine_max (d : date) : datetime :=
  {| year := d_year d; month := d_month d; day := d_day d;
     hour := 23; minute := 59; second := 59; microsecond := 999999 |}.

(** [q.filter(Review.review_date >= start)] when [start] is given; a NULL
    timestamp fails the comparison. *)
Definition date_ge_filter (start : option datetime) (r : Review) : bool :=
  match start with
  | None => true
  | Some s =>
      match review_date r with
      | Some d => datetime_le s d
      | None => false
      end
  end.

Definition date_le_filter (stop : option datetime) (r : Review) : bool :=
  match stop with
  | None => true
  | Some e =>
      match review_date r with
      | Some d => datetime_le d e
      | None => false
      end
  end.

Definition is_some {A} (o : option A) : bool :=
  match o with Some _ => true | None => false end.

(** What a function call yields: a value, or an exception that reaches the
    caller. *)
Inductive exception := ValueError (msg : string).

Inductive outcome (A : Type) :=
| Returns (a : A)
| Raises (e : exception).
Arguments Returns {A} a.
Arguments Raises {A} e.

(** ** [collections.Counter], in insertion order *)

Definition Counter := list (str * nat).

(** [c.update([w])]: add one to the count of [w]; a new key goes last. *)
Fixpoint counter_update (w : str) (c : Counter) : Counter :=
  match c with
  | [] => [(w, 1%nat)]
  | (w', n) :: c' =>
      if decide (w' = w) then (w', S n) :: c'
      else (w', n) :: counter_update w c'
  end.

(** [c[w]]: the count of [w], 0 for a missing key. *)
Fixpoint counter_get (c : Counter) (w : str) : nat :=
  match c with
  | [] => 0%nat
  | (w', n) :: c' => if decide (w' = w) then n else counter_get c' w
  end.

(** [sorted(items, key=itemgetter(1), reverse=True)]: a stable sort, so
    equal counts keep the order of [items]. *)
Fixpoint insert_desc (x : str * nat) (l : list (str * nat)) : list (str * nat) :=
  match l with
  | [] => [x]
  | y :: l' =>
      if decide (y.2 ≤ x.2)%nat then x :: y :: l'
      else y :: insert_desc x l'
  end.

Definition sorted_desc (l : list (str * nat)) : list (str * nat) :=
  foldr insert_desc [] l.

(** [c.most_common(n)] is [heapq.nlargest(n, c.items(), key=itemgetter(1))],
    which is documented as [sorted(..., reverse=True)[:n]] and is empty for
    [n <= 0]. *)
Definition most_common (n : Z) (c : Counter) : list (str * nat) :=
  take (Z.to_nat n) (sorted_desc c).

(** ** Endpoint 1: word frequency *)

Definition POSITIVE_WORDS : list str := py_str <$>
  [ "excellent"; "great"; "good"; "amazing"; "clean"; "friendly";
    "comfortable"; "wonderful"; "perfect"; "nice"; "helpful";
    "recommend"; "love"; "best"; "enjoy"; "spacious"; "lovely";
    "fantastic"; "awesome" ]%string.

Definition NEGATIVE_WORDS : list str := py_str <$>
  [ "bad"; "terrible"; "awful"; "dirty"; "rude"; "worst"; "broken";
    "poor"; "noisy"; "disappointed"; "uncomfortable"; "hate";
    "slow"; "problem"; "issue"; "smell"; "smelly"; "horrible";
    "disgusting" ]%string.

Record word_frequency_result := {
  total_reviews_scanned : nat;
  reviews_with_positive_words : nat;
  reviews_with_negative_words : nat;
  top_k : Z;
  positive_top_words : list (str * nat);
  negative_top_words : list (str * nat) }.

(** The variables of the scan: the two counters and the two sets of ids. *)
Record scan_state := {
  pos_counter : Counter;
  neg_counter : Counter;
  pos_hits : gset Z;
  neg_hits : gset Z }.

Definition scan_init : scan_state :=
  {| pos_counter := []; neg_counter := []; pos_hits := ∅; neg_hits := ∅ |}.

(** The variables of the inner loop over the words of one review. *)
Record word_state := {
  ws_pos : Counter;
  ws_neg : Counter;
  found_pos : bool;
  found_neg : bool }.

(** One iteration of [for w in words]. *)
Definition scan_word (st : word_state) (w : str) : word_state :=
  let st1 :=
    if bool_decide (w ∈ POSITIVE_WORDS)
    then {| ws_pos := counter_update w (ws_pos st); ws_neg := ws_neg st;
            found_pos := true; found_neg := found_neg st |}
    else st in
  if bool_decide (w ∈ NEGATIVE_WORDS)
  then {| ws_pos := ws_pos st1; ws_neg := counter_update w (ws_neg st1);
          found_pos := found_pos st1; found_neg := true |}
  else st1.

Section WordFrequency.
Context `{UnicodeData}.

(** One iteration of [for r in reviews]. *)
Definition scan_review (st : scan_state) (r : Review) : scan_state :=
  let words := extract_clean_words (Some (default [] (text r))) in
  match words with
  | [] => st
  | _ =>
      let ws := foldl scan_word
                  {| ws_pos := pos_counter st; ws_neg := neg_counter st;
                     found_pos := false; found_neg := false |} words in
      {| pos_counter := ws_pos ws;
         neg_counter := ws_neg ws;
         pos_hits := if found_pos ws then pos_hits st ∪ {[review_id r]}
                     else pos_hits st;
         neg_hits := if found_neg ws then neg_hits st ∪ {[review_id r]}
                     else neg_hits st |}
  end.

(** The query of [word_frequency]: text not NULL, inside the date range. *)
Definition word_frequency_query (db : list Review)
    (start_date end_date : option datetime) : list Review :=
  filter (λ r, date_le_filter end_date r)
    (filter (λ r, date_ge_filter start_date r)
       (filter (λ r, is_some (text r)) db)).

Definition word_frequency (db : list Review)
    (start_date end_date : option datetime) (k : Z) : word_frequency_result :=
  let reviews := word_frequency_query db start_date end_date in
  let st := foldl scan_review scan_init reviews in
  {| total_reviews_scanned := length reviews;
     reviews_with_positive_words := size (pos_hits st);
     reviews_with_negative_words := size (neg_hits st);
     top_k := k;
     positive_top_words := most_common k (pos_counter st);
     negative_top_words := most_common k (neg_counter st) |}.

End WordFrequency.

(** The words of one review that belong to a lexicon, and the lexicon words
    of a whole scan, in the order the scan meets them. *)
Section Stream.
Context `{UnicodeData}.

Definition review_words (r : Review) : list str :=
  extract_clean_words (Some (default [] (text r))).

Definition lexicon_stream (lexicon : list str) (reviews : list Review) : list str :=
  reviews ≫= (λ r, filter (λ w, w ∈ lexicon) (review_words r)).

End Stream.

(** A counter after one [update] per word of a stream. *)
Definition count_words (c : Counter) (stream : list str) : Counter :=
  foldl (λ c w, counter_update w c) c stream.

(** The count that a top-word list reports for [w]; a word that is not
    listed has none. *)
Definition listed_count (top : list (str * nat)) (w : str) : nat :=
  counter_get top w.

(** How many times [w] occurs in a token sequence. *)
Definition occurrences (w : str) (l : list str) : nat :=
  length (filter (λ t, t = w) l).

(** [a] is met in the stream before [b] is met for the first time. *)
Definition encountered_before (stream : list str) (a b : str) : Prop :=
  a ≠ b ∧ ∃ l1 l2, stream = l1 ++ a :: l2 ∧ b ∉ l1.

(** A top-word list of at most [k] entries for a stream of lexicon words:
    distinct words with their total counts, in descending order of count,
    equal counts in the order of first encounter, and no word left out
    that has more occurrences than a listed one. *)
Record ranked (k : Z) (stream : list str) (top : list (str * nat)) : Prop := {
  ranked_length : (length top ≤ Z.to_nat k)%nat;
  ranked_counts : ∀ w n, (w, n) ∈ top → n = occurrences w stream ∧ (0 < n)%nat;
  ranked_distinct : NoDup top.*1;
  ranked_desc : StronglySorted (λ a b, (b.2 ≤ a.2)%nat) top;
  ranked_ties : ∀ i j a b, (i < j)%nat → top !! i = Some a → top !! j = Some b →
                a.2 = b.2 → encountered_before stream a.1 b.1;
  ranked_top : ∀ w, w ∈ stream → w ∉ top.*1 →
               length top = Z.to_nat k
               ∧ ∀ a, a ∈ top → (occurrences w stream ≤ a.2)%nat }.

(** ** Endpoint 2: sentiment trend *)

(** The proleptic Gregorian ordinal of a calendar date, as
    [date.toordinal] computes it: day 1 is 0001-01-01, a Monday. *)
Definition is_leap (y : Z) : bool :=
  bool_decide (y `mod` 4 = 0)
  && (negb (bool_decide (y `mod` 100 = 0)) || bool_decide (y `mod` 400 = 0)).

Definition days_before_year (y : Z) : Z :=
  let y1 := y - 1 in y1 * 365 + y1 `div` 4 - y1 `div` 100 + y1 `div` 400.

Definition DAYS_BEFORE_MONTH : list Z :=
  [0; 31; 59; 90; 120; 151; 181; 212; 243; 273; 304; 334].

Definition days_before_month (y m : Z) : Z :=
  default 0 (DAYS_BEFORE_MONTH !! Z.to_nat (m - 1))
  + (if bool_decide (2 < m) && is_leap y then 1 else 0).

Definition ymd2ord (y m d : Z) : Z :=
  days_before_year y + days_before_month y m + d.

Definition toordinal (d : datetime) : Z := ymd2ord (year d) (month d) (day d).

(** The key a timestamp is grouped under: [dt.date] (a day), or
    [dt.to_period("W")] (the week from Monday to Sunday), or
    [dt.to_period("M")] (the calendar month).  Each is numbered in
    chronological order; any interval other than daily and weekly is
    monthly. *)
Definition bucket_key (interval : string) (d : datetime) : Z :=
  if decide (interval = "daily"%string) then toordinal d
  else if decide (interval = "weekly"%string) then (toordinal d - 1) `div` 7
  else year d * 12 + (month d - 1).

(** The ordinal of the first day of a bucket. *)
Definition month_start (k : Z) : Z := ymd2ord (k `div` 12) (k `mod` 12 + 1) 1.

Definition bucket_start (interval : string) (k : Z) : Z :=
  if decide (interval = "daily"%string) then k
  else if decide (interval = "weekly"%string) then 7 * k + 1
  else month_start k.

(** The dates of the timestamps of a data frame: a date of the calendar
    ([_check_date_fields]), of a year that a timestamp of nanoseconds
    covers from its first day to its last (1678 to 2261). *)
Definition DAYS_IN_MONTH : list Z :=
  [31; 28; 31; 30; 31; 30; 31; 31; 30; 31; 30; 31].

Definition days_in_month (y m : Z) : Z :=
  if bool_decide (m = 2) && is_leap y then 29
  else default 0 (DAYS_IN_MONTH !! Z.to_nat (m - 1)).

Definition valid_date (d : datetime) : Prop :=
  1678 ≤ year d ≤ 2261 ∧ 1 ≤ month d ≤ 12
  ∧ 1 ≤ day d ≤ days_in_month (year d) (month d).

(** [date.weekday()]: Monday is 0, Sunday is 6. *)
Definition weekday (d : datetime) : Z := (toordinal d + 6) `mod` 7.

(** Two timestamps of one time bucket, in the words of the calendar: the
    same date; the same week from Monday to Sunday, that is the same
    Monday on or before them; the same month of the same year. *)
Definition same_bucket (interval : string) (d1 d2 : datetime) : Prop :=
  if decide (interval = "daily"%string)
  then year d1 = year d2 ∧ month d1 = month d2 ∧ day d1 = day d2
  else if decide (interval = "weekly"%string)
  then toordinal d1 - weekday d1 = toordinal d2 - weekday d2
  else year d1 = year d2 ∧ month d1 = month d2.

(** The ordinal of the first day of the bucket of a timestamp: the day
    itself, the Monday of its week, the first of its month. *)
Definition first_day (interval : string) (d : datetime) : Z :=
  if decide (interval = "daily"%string) then toordinal d
  else if decide (interval = "weekly"%string) then toordinal d - weekday d
  else ymd2ord (year d) (month d) 1.

(** The double nearest to an integer: the conversion of an [int64] to
    [float64]. *)
Definition float_of_Z (z : Z) : float :=
  SF2Prim (binary_normalize prec emax z 0 false).

(** The mean of one group as pandas computes it ([group_mean] of
    [pandas/_libs/groupby.pyx], on [float64]): a compensated (Kahan) sum of
    the values that are not NaN, divided by their number. *)
Record group_acc := {
  sumx : float;
  compensation : float;
  nobs : Z }.

Definition group_init : group_acc :=
  {| sumx := 0; compensation := 0; nobs := 0 |}.

(** One iteration of the loop over the rows, for a row of the group. *)
Definition group_add (acc : group_acc) (val : float) : group_acc :=
  if is_nan val then acc
  else
    let y := (val - compensation acc)%float in
    let t := (sumx acc + y)%float in
    let c := (t - sumx acc - y)%float in
    {| sumx := t;
       compensation := if is_nan c then 0%float else c;
       nobs := nobs acc + 1 |}.

Definition group_mean (values : list float) : float :=
  let acc := foldl group_add group_init values in
  if bool_decide (nobs acc = 0) then nan
  else (sumx acc / float_of_Z (nobs acc))%float.

(** The compensated sum of a list of doubles, in the words of the method
    (Kahan summation): beside the running sum goes the rounding error of
    the additions made so far, which is taken off the next value before
    that value is added. *)
Definition compensated_step (sc : float * float) (x : float) : float * float :=
  let y := (x - sc.2)%float in
  let t := (sc.1 + y)%float in
  let c := (t - sc.1 - y)%float in
  (t, if is_nan c then 0%float else c).

Definition compensated_sum (l : list float) : float :=
  (foldl compensated_step (0%float, 0%float) l).1.

(** [df.groupby(key).mean()]: one row per distinct key, keys in ascending
    order (groupby sorts its keys), the mean of the values of each group,
    taken in the order of the rows. *)
Definition group_values (rows : list (Z * float)) (k : Z) : list float :=
  snd <$> filter (λ row, row.1 = k) rows.

Definition groupby_mean (rows : list (Z * float)) : list (Z * float) :=
  (λ k, (k, group_mean (group_values rows k)))
    <$> merge_sort Z.le (remove_dups (fst <$> rows)).

(** The polarities of the reviews whose timestamp falls in bucket [k], in
    the order of the rows. *)
Definition bucket_polarities (interval : string) (reviews : list Review) (k : Z)
    : list float :=
  omap (λ r, d ← review_date r; p ← polarity r;
             if decide (bucket_key interval d = k) then Some p else None)
    reviews.

Inductive trend_response :=
| TrendError (error : string)
(** The PNG of the plotted series [grouped]. *)
| TrendPlot (grouped : list (Z * float)).

Definition sentiment_trend_query (db : list Review)
    (start_date end_date : option date) : list Review :=
  filter (λ r, date_le_filter (combine_max <$> end_date) r)
    (filter (λ r, date_ge_filter (combine_min <$> start_date) r)
       (filter (λ r, is_some (polarity r) && is_some (review_date r)) db)).

(** The two columns of the data frame, row by row.  The query leaves no
    row without a timestamp or a polarity. *)
Definition trend_rows (interval : string) (reviews : list Review)
    : list (Z * float) :=
  omap (λ r, d ← review_date r; p ← polarity r; Some (bucket_key interval d, p))
    reviews.

Definition sentiment_trend (db : list Review)
    (start_date end_date : option date) (interval : string) : trend_response :=
  let reviews := sentiment_trend_query db start_date end_date in
  match reviews with
  | [] => TrendError "Tidak ada data pada rentang ini."
  | _ => TrendPlot (groupby_mean (trend_rows interval reviews))
  end.

(** ** Endpoint 3A: rating against length *)

(** The two floats [scipy.stats.pearsonr] returns, by the exact quantities
    that determine them.  For [n] observations, with
    [sxy = n Σxy - Σx Σy], [sxx = n Σx² - (Σx)²], [syy = n Σy² - (Σy)²]:
    the coefficient is [sxy / sqrt (sxx * syy)] and the p-value is the
    two-sided p-value of that coefficient for [n] observations. *)
Inductive statistic :=
| NaN
| Coefficient (sxy sxx syy : Z)
| PValue (n : nat) (sxy sxx syy : Z).

Definition Zsum (l : list Z) : Z := foldr Z.add 0 l.

Definition cross_sum (x y : list Z) : Z :=
  Z.of_nat (length x) * Zsum (zip_with Z.mul x y) - Zsum x * Zsum y.

Definition is_constant (x : list Z) : bool :=
  match x with
  | [] => true
  | x0 :: _ => bool_decide (Forall (λ v, v = x0) x)
  end.

(** [pearsonr(x, y)] for two arrays of one length: fewer than two
    observations raise [ValueError]; a constant array gives [nan] for both
    results (with a warning). *)
Definition pearsonr (x y : list Z) : outcome (statistic * statistic) :=
  if bool_decide (length x < 2)%nat
  then Raises (ValueError "x and y must have length at least 2.")
  else if is_constant x || is_constant y then Returns (NaN, NaN)
  else Returns (Coefficient (cross_sum x y) (cross_sum x x) (cross_sum y y),
                PValue (length x) (cross_sum x y) (cross_sum x x) (cross_sum y y)).

(** [n²] times the sum of the squared deviations from the mean,
    [Σ (n x - Σx)²]: zero exactly when the variance is zero. *)
Definition sq_deviation (x : list Z) : Z :=
  Zsum ((λ v, (Z.of_nat (length x) * v - Zsum x) ^ 2) <$> x).

(** A paired sample on which Pearson's r is undefined: fewer than two
    points, or no variance in one of the two dimensions. *)
Definition degenerate (recs : list (Z * nat)) : Prop :=
  (length recs < 2)%nat
  ∨ sq_deviation (fst <$> recs) = 0
  ∨ sq_deviation ((λ rec, Z.of_nat rec.2) <$> recs) = 0.

Inductive correlation_response :=
| CorrelationError (error : string)
| CorrelationStats (avg_length_per_rating : list (Z * option float))
    (pearson_r p_value : statistic).

(** An explicit report that no usable result exists: the error response. *)
Definition reports_undefined (o : outcome correlation_response) : bool :=
  match o with
  | Returns (CorrelationError _) => true
  | _ => false
  end.

(** [np.mean] of a list of integers: numpy adds them in [float64] and
    divides the sum by their number.  Integers and sums of integers below
    [2^53] are doubles, so that below this bound the additions are exact in
    whatever order numpy does them, and the result is the double nearest to
    the quotient of the exact sum; the definition is [np.mean] on such
    lists. *)
Definition np_mean (l : list Z) : float :=
  (float_of_Z (Zsum l) / float_of_Z (Z.of_nat (length l)))%float.

Section Correlation.
Context `{UnicodeData}.

Definition correlation_query (db : list Review)
    (start_date end_date : option date) : list Review :=
  filter (λ r, date_le_filter (combine_max <$> end_date) r)
    (filter (λ r, date_ge_filter (combine_min <$> start_date) r)
       (filter (λ r, is_some (rating r) && is_some (text r)
                     && negb (bool_decide (text r = Some []))) db)).

(** [records]: the query leaves no row without a rating. *)
Definition records (reviews : list Review) : list (Z * nat) :=
  omap (λ r, rt ← rating r; Some (rt, count_letters (text r))) reviews.

(** [ratings] and [lengths], the two arrays handed to [pearsonr]. *)
Definition sample_ratings (recs : list (Z * nat)) : list Z := fst <$> recs.
Definition sample_lengths (recs : list (Z * nat)) : list Z :=
  (λ rec, Z.of_nat rec.2) <$> recs.

(** One entry of [avg_length_per_rating]. *)
Definition avg_length (recs : list (Z * nat)) (rating : Z) : option float :=
  let subset := snd <$> filter (λ rec, rec.1 = rating) recs in
  match subset with
  | [] => None
  | _ => Some (np_mean (Z.of_nat <$> subset))
  end.

(** The loop [for rating in range(1, 6)]. *)
Definition rating_table (recs : list (Z * nat)) : list (Z * option float) :=
  (λ rating, (rating, avg_length recs rating)) <$> seqZ 1 5.

(** A rating of the scale of the table, 1 to 5. *)
Definition rated_in_scale (r : Review) : bool :=
  match rating r with
  | Some rt => bool_decide (1 ≤ rt ≤ 5)
  | None => false
  end.

Definition rating_length_correlation (db : list Review)
    (start_date end_date : option date) : outcome correlation_response :=
  let reviews := correlation_query db start_date end_date in
  match reviews with
  | [] => Returns (CorrelationError "Tidak ada review dalam rentang ini.")
  | _ =>
      let recs := records reviews in
      match pearsonr (sample_ratings recs) (sample_lengths recs) with
      | Raises e => Raises e
      | Returns (pearson_r, p_value) =>
          Returns (CorrelationStats (rating_table recs) pearson_r p_value)
      end
  end.

(** The letter counts of the reviews rated [k]. *)
Definition lengths_of_rating (reviews : list Review) (k : Z) : list Z :=
  (λ r, Z.of_nat (count_letters (text r)))
    <$> filter (λ r, rating r = Some k) reviews.

End Correlation.

(** [" ".join(words)]. *)
Fixpoint join_space (words : list str) : str :=
  match words with
  | [] => []
  | [t] => t
  | t :: ts => t ++ 32%N :: join_space ts
  end.


(** ** Endpoint 3B: the scatter plot of rating against length *)

(** The PNG of the plot: the points ([lengths] on the x axis, [ratings] on
    the y axis) and the coefficient printed in the title. *)
Inductive plot_response :=
| PlotError (error : string)
| ScatterPlot (lengths ratings : list Z) (pearson_r : statistic).

Section CorrelationPlot.
Context `{UnicodeData}.

Definition rating_length_correlation_plot (db : list Review)
    (start_date end_date : option date) : outcome plot_response :=
  let reviews := correlation_query db start_date end_date in
  match reviews with
  | [] => Returns (PlotError "Tidak ada review dalam rentang ini.")
  | _ =>
      let recs := records reviews in
      let ratings := sample_ratings recs in
      let lengths := sample_lengths recs in
      match pearsonr ratings lengths with
      | Raises e => Raises e
      | Returns (pearson_r, _) => Returns (ScatterPlot lengths ratings pearson_r)
      end
  end.

(** The ids of the reviews that hold a word of a lexicon. *)
Definition has_lexicon_word (lexicon : list str) (r : Review) : Prop :=
  Exists (λ w, w ∈ lexicon) (review_words r).

Definition hit_ids (lexicon : list str) (reviews : list Review) : gset Z :=
  list_to_set (review_id <$> filter (has_lexicon_word lexicon) reviews).

End CorrelationPlot.

(** A time of day as [datetime] stores it. *)
Definition valid_time (d : datetime) : Prop :=
  0 ≤ hour d ≤ 23 ∧ 0 ≤ minute d ≤ 59 ∧ 0 ≤ second d ≤ 59
  ∧ 0 ≤ microsecond d ≤ 999999.

(** [d.date()]. *)
Definition date_of (d : datetime) : date :=
  {| d_year := year d; d_month := month d; d_day := day d |}.

(** [a <= b] on [date] values: year, month, day, most significant first. *)
Definition date_fields (d : date) : list Z := [d_year d; d_month d; d_day d].

Definition date_le (a b : date) : bool :=
  match tuple_compare (date_fields a) (date_fields b) with
  | Gt => false
  | _ => true
  end.

(** ** The reviews router (app/feedback/router.py) *)

(** A row of [reviews] with the further columns the reviews and users
    routers read. *)
Record ReviewRow := {
  row : Review;
  product_id : option Z;
  user_id : option Z;
  sentiment_label : option str;
  subjectivity : option Q }.

(** Comparisons of a nullable integer column with a value: a NULL makes
    the comparison fail. *)
Definition sql_eq (col : option Z) (v : Z) : bool :=
  match col with Some x => bool_decide (x = v) | None => false end.
Definition sql_ge (col : option Z) (v : Z) : bool :=
  match col with Some x => bool_decide (v ≤ x) | None => false end.
Definition sql_le (col : option Z) (v : Z) : bool :=
  match col with Some x => bool_decide (x ≤ v) | None => false end.

(** One optional filter of [list_reviews]: absent, it lets every row
    through. *)
Definition when_given (param : option Z) (test : Z → bool) : bool :=
  match param with Some v => test v | None => true end.

(** The conjunction [and_] of the filters that are given. *)
Definition list_reviews_filter (pid uid rating_min rating_max : option Z)
    (r : ReviewRow) : bool :=
  when_given pid (sql_eq (product_id r))
  && when_given uid (sql_eq (user_id r))
  && when_given rating_min (sql_ge (rating (row r)))
  && when_given rating_max (sql_le (rating (row r))).

(** [order_by(Review.id)]. *)
Definition id_le (a b : ReviewRow) : Prop :=
  review_id (row a) ≤ review_id (row b).

#[export] Instance id_le_dec : RelDecision id_le.
Proof. intros a b. unfold id_le. apply _. Defined.

Definition order_by_id (l : list ReviewRow) : list ReviewRow :=
  merge_sort id_le l.

(** [limit] and [offset] are validated as non-negative before the call. *)
Definition list_reviews (db : list ReviewRow)
    (pid uid rating_min rating_max : option Z) (limit offset : nat)
    : list ReviewRow :=
  take limit
    (drop offset
       (order_by_id
          (filter (λ r, list_reviews_filter pid uid rating_min rating_max r) db))).

Definition Qsum (l : list Q) : Q := foldr Qplus 0%Q l.

(** The arithmetic mean of a non-empty list of rationals. *)
Definition mean (l : list Q) : Q := (Qsum l / inject_Z (Z.of_nat (length l)))%Q.

(** [func.avg] over a nullable column: the mean of the values that are
    not NULL, NULL when there is none. *)
Definition sql_avg (column : list (option Q)) : option Q :=
  match omap id column with
  | [] => None
  | values => Some (mean values)
  end.

(** [label or "UNKNOWN"]: a NULL and an empty label both become
    "UNKNOWN". *)
Definition label_or_unknown (label : option str) : str :=
  match label with
  | None | Some [] => py_str "UNKNOWN"
  | Some s => s
  end.

(** The rows of the GROUP BY: one per distinct label, with the number of
    reviews that carry it.  Labels are compared code point by code point.
    The database returns the groups in an order of its choice; here they
    come in the order of their first rows. *)
Definition label_groups (db : list ReviewRow) : list (option str * nat) :=
  (λ label, (label, length (filter (λ r, sentiment_label r = label) db)))
    <$> remove_dups (sentiment_label <$> db).

(** The dict comprehension: a later row with the same key replaces an
    earlier one. *)
Definition sentiment_counts_of (rows : list (option str * nat)) : gmap str nat :=
  foldl (λ d row, <[label_or_unknown row.1 := row.2]> d) ∅ rows.

(** [Review.subjectivity == 1.0]; a NULL fails the comparison. *)
Definition is_sarcastic (r : ReviewRow) : bool :=
  match subjectivity r with
  | Some s => Qeq_bool s 1
  | None => false
  end.

(** [func.avg] over a nullable [Float] column: the database adds the
    values that are not NULL in double precision, here in the order of the
    rows, and divides by their number. *)
Definition sql_avg_float (column : list (option float)) : option float :=
  match omap id column with
  | [] => None
  | values =>
      Some (foldl PrimFloat.add 0%float values
            / float_of_Z (Z.of_nat (length values)))%float
  end.

Record summary := {
  total_reviews : nat;
  avg_rating : option Q;
  avg_polarity : option float;
  sentiment_counts : gmap str nat;
  sarcasm_count : nat;
  sarcasm_rate : Q }.

Definition sentiment_summary (db : list ReviewRow) : summary :=
  let total_reviews := length db in
  let avg_rating :=
    sql_avg ((λ r, inject_Z <$> rating (row r)) <$> db) in
  let avg_polarity := sql_avg_float ((λ r, polarity (row r)) <$> db) in
  let rows := label_groups db in
  let sarcasm_count :=
    length (filter (λ r, is_sarcastic r) db) in
  let sarcasm_rate :=
    if bool_decide (0 < total_reviews)%nat
    then (inject_Z (Z.of_nat sarcasm_count) / inject_Z (Z.of_nat total_reviews))%Q
    else 0%Q in
  {| total_reviews := total_reviews;
     avg_rating := avg_rating;
     avg_polarity := avg_polarity;
     sentiment_counts := sentiment_counts_of rows;
     sarcasm_count := sarcasm_count;
     sarcasm_rate := sarcasm_rate |}.

(** ** Deleting rows (app/users/router.py, app/feedback/router.py) *)

(** A row of [users]. *)
Record UserRow := {
  u_id : Z;
  username : str;
  user_city : option str;
  user_province : option str }.

Record database := {
  users : list UserRow;
  reviews : list ReviewRow }.

(** A handler returns a value or raises [HTTPException]. *)
Inductive http_result (A : Type) :=
| Ok (a : A)
| HTTPException (status_code : Z) (detail : string).
Arguments Ok {A} a.
Arguments HTTPException {A} status_code detail.

(** [delete_user]: the reviews of the user go first, then the user.  The
    result is the database after the commit and the message. *)
Definition delete_user (user_id' : Z) (db : database)
    : http_result (database * string) :=
  match filter (λ u, u_id u = user_id') (users db) with
  | [] => HTTPException 404 "User tidak ditemukan."
  | user :: _ =>
      let reviews' :=
        filter (λ r, sql_eq (user_id r) user_id' = false) (reviews db) in
      let users' := filter (λ u, u_id u ≠ u_id user) (users db) in
      Ok ({| users := users'; reviews := reviews' |},
          ("User " +:+ pretty user_id'
           +:+ " dan semua review-nya sudah dihapus.")%string)
  end.

(** [delete_review]. *)
Definition delete_review (review_id' : Z) (db : database)
    : http_result (database * string) :=
  match filter (λ r, review_id (row r) = review_id') (reviews db) with
  | [] => HTTPException 404 "Review tidak ditemukan."
  | review :: _ =>
      let reviews' :=
        filter (λ r, review_id (row r) ≠ review_id (row review)) (reviews db) in
      Ok ({| users := users db; reviews := reviews' |},
          ("Review " +:+ pretty review_id' +:+ " sudah dihapus.")%string)
  end.

(** ** The CSV import (app/import_data.py) *)

Section CsvImport.

(** [str.isspace], from the Unicode character database. *)
Variable isspace : codepoint → bool.

(** [str.strip()]: without the leading and the trailing white space. *)
Fixpoint lstrip (s : str) : str :=
  match s with
  | [] => []
  | c :: s' => if isspace c then lstrip s' else s
  end.

Definition strip (s : str) : str := reverse (lstrip (reverse (lstrip s))).

(** The cells of a CSV row that the import of the users reads; [None] is a
    missing value (NaN), also when the file has no such column. *)
Record csv_row := {
  csv_username : option str;
  csv_user_city : option str;
  csv_user_province : option str }.

(** The name a row is imported under: "Unknown" for a missing or blank
    one. *)
Definition row_username (r : csv_row) : str :=
  match csv_username r with
  | None => py_str "Unknown"
  | Some s => if bool_decide (strip s = []) then py_str "Unknown" else s
  end.

(** [user_info]: a dict from the user name to its city and province, in
    insertion order. *)
Definition user_info := list (str * (option str * option str)).

(** One iteration of the loop over the rows: a new name gets the city and
    the province of the row; a known name only has a value that is still
    [None] filled in. *)
Fixpoint user_info_update (name : str) (city province : option str)
    (info : user_info) : user_info :=
  match info with
  | [] => [(name, (city, province))]
  | (name', (city', province')) :: info' =>
      if decide (name' = name)
      then (name',
            (match city' with None => city | Some _ => city' end,
             match province' with None => province | Some _ => province' end))
           :: info'
      else (name', (city', province')) :: user_info_update name city province info'
  end.

Definition collect_user_info (rows : list csv_row) : user_info :=
  foldl (λ info r,
           user_info_update (row_username r) (csv_user_city r)
             (csv_user_province r) info)
    [] rows.

Inductive import_result :=
(** The table already has rows: nothing is imported. *)
| Skipped
| RuntimeError (msg : string)
(** The users added and committed: name, city, province. *)
| Imported (new_users : list (str * (option str * option str))).

(** [count_users] is the number of rows of [users] before the import;
    [has_username] tells whether the file has the column
    [reviews.username]. *)
Definition import_users_if_needed (count_users : nat) (has_username : bool)
    (rows : list csv_row) : import_result :=
  if bool_decide (0 < count_users)%nat then Skipped
  else if negb has_username
  then RuntimeError "Kolom 'reviews.username' tidak ditemukan di CSV!"
  else Imported (collect_user_info rows).

(** The first value of a column that is not missing, among the rows
    imported under one name. *)
Definition first_value (column : csv_row → option str) (rows : list csv_row)
    (name : str) : option str :=
  head (omap column (filter (λ r, row_username r = name) rows)).

(** A row of [products]. *)
Record ProductRow := {
  p_id : Z;
  p_name : option str }.

(** [build_product_map]: the id of a hotel by its stripped name; a name
    that is already there is kept. *)
Definition build_product_map (products : list ProductRow) : gmap str Z :=
  foldl (λ prod_map p,
           let key := strip (default [] (p_name p)) in
           if bool_decide (key ≠ []) && bool_decide (prod_map !! key = None)
           then <[key := p_id p]> prod_map
           else prod_map)
    ∅ products.

End CsvImport.
(** ** Sample data *)

(** A review without timestamp or polarity. *)
Definition text_review (i : Z) (rt : option Z) (t : option str) : Review :=
  {| review_id := i; rating := rt; text := t;
     review_date := None; polarity := None |}.

(** A review without text or rating, at noon of the given day. *)
Definition dated_review (i y m d : Z) (p : float) : Review :=
  {| review_id := i; rating := None; text := None;
     review_date := Some {| year := y; month := m; day := d; hour := 12;
                            minute := 0; second := 0; microsecond := 0 |};
     polarity := Some p |}.

(** "20 m²" and "10²": U+00B2 is SUPERSCRIPT TWO. *)
Definition text_square_metres : str := py_str "20 m" ++ [178%N].
Definition text_ten_squared : str := py_str "10" ++ [178%N].

(** Ratings 1 to 5, every text of five letters. *)
Definition reviews_constant_length : list Review :=
  [ text_review 1 (Some 1) (Some (py_str "awful"));
    text_review 2 (Some 2) (Some (py_str "noisy"));
    text_review 3 (Some 3) (Some (py_str "plain"));
    text_review 4 (Some 4) (Some (py_str "clean"));
    text_review 5 (Some 5) (Some (py_str "great")) ].

(** Four reviews, one of them rated 7. *)
Definition reviews_with_rating_7 : list Review :=
  [ text_review 1 (Some 1) (Some (py_str "bad"));
    text_review 2 (Some 5) (Some (py_str "an excellent stay"));
    text_review 3 (Some 7) (Some (py_str "wow"));
    text_review 4 (Some 5) (Some (py_str "good")) ].

(** Two reviews of one day, polarities 0.2 and 0.8. *)
Definition reviews_same_day : list Review :=
  [ dated_review 1 2015 3 1 0.2; dated_review 2 2015 3 1 0.8 ].

(** Three reviews of one day, each of polarity 0.1. *)
Definition reviews_three_tenths : list Review :=
  [ dated_review 1 2015 3 1 0.1; dated_review 2 2015 3 1 0.1;
    dated_review 3 2015 3 1 0.1 ].

(** ** Basic Latin and Latin-1 Supplement

    The values of [str.isalpha], [str.isdecimal], [str.isdigit],
    [str.isnumeric] and [str.lower] on U+0000..U+00FF.  Code points above
    U+00FF are outside the table (no class, caseless); the instance is only
    used on texts within the range. *)

Definition between (lo hi c : N) : bool := bool_decide (lo ≤ c ≤ hi)%N.

Definition latin1_isalpha (c : codepoint) : bool :=
  between 65 90 c || between 97 122 c
  || bool_decide (c = 170%N) || bool_decide (c = 181%N) || bool_decide (c = 186%N)
  || between 192 214 c || between 216 246 c || between 248 255 c.

Definition latin1_isdecimal (c : codepoint) : bool := between 48 57 c.

(** U+00B2, U+00B3 and U+00B9 are the superscript digits. *)
Definition latin1_isdigit (c : codepoint) : bool :=
  latin1_isdecimal c
  || bool_decide (c = 178%N) || bool_decide (c = 179%N) || bool_decide (c = 185%N).

(** U+00BC..U+00BE are the vulgar fractions. *)
Definition latin1_isnumeric (c : codepoint) : bool :=
  latin1_isdigit c || between 188 190 c.

(** The capitals: A..Z, U+00C0..U+00D6 and U+00D8..U+00DE. *)
Definition latin1_lower_cp (c : codepoint) : codepoint :=
  if between 65 90 c || between 192 214 c || between 216 222 c
  then (c + 32)%N else c.

Definition latin1_lower (s : str) : str := latin1_lower_cp <$> s.

(** The tables as an instance of the class. *)
#[export] Program Instance latin1 : UnicodeData := {|
  isalpha := latin1_isalpha;
  isdecimal := latin1_isdecimal;
  isdigit := latin1_isdigit;
  isnumeric := latin1_isnumeric;
  lower := latin1_lower;
  space_not_alnum := eq_refl |}.
Next Obligation.
  intros s t Hsub. unfold latin1_lower.
  rewrite <- (list_fmap_id t) at 2. apply list_fmap_ext.
  intros i c Hc. apply list_elem_of_lookup_2, Hsub in Hc.
  apply elem_of_cons in Hc as [->|Hc]; [reflexivity|].
  apply list_elem_of_fmap in Hc as (c0 & -> & _).
  unfold latin1_lower_cp, between.
  destruct (bool_decide (65 ≤ c0 ≤ 90)%N || bool_decide (192 ≤ c0 ≤ 214)%N
            || bool_decide (216 ≤ c0 ≤ 222)%N) eqn:Hc0.
  - rewrite !orb_true_iff, !bool_decide_eq_true in Hc0.
    rewrite !(bool_decide_eq_false_2 (_ ≤ c0 + 32 ≤ _)%N) by lia. reflexivity.
  - by rewrite Hc0.
Qed.


(** ** More sample data *)

(** A review with all the fields the analytics read, at noon of its day. *)
Definition full_review (i rt : Z) (t : string) (y m d : Z) (p : float)
    : Review :=
  {| review_id := i; rating := Some rt; text := Some (py_str t);
     review_date := Some {| year := y; month := m; day := d; hour := 12;
                            minute := 0; second := 0; microsecond := 0 |};
     polarity := Some p |}.

Definition review_great : Review :=
  full_review 1 5 "Great pool, great staff" 2015 3 1 0.9.
Definition review_noisy : Review :=
  full_review 2 2 "Noisy and dirty" 2015 3 2 0.2.
Definition review_nice : Review :=
  full_review 3 4 "Nice but noisy" 2015 3 9 0.6.

Definition review_excellent : Review :=
  full_review 7 5 "Excellent pool, excellent food" 2015 3 5 0.8.

Definition sample_db : list Review := [review_great; review_noisy; review_nice].
Definition sample_db_swapped : list Review := [review_noisy; review_great; review_nice].

Definition march (d : Z) : date := {| d_year := 2015; d_month := 3; d_day := d |}.

(** Rows of [reviews] with their further columns. *)
Definition sample_rows : list ReviewRow :=
  [ {| row := review_nice; product_id := Some 7; user_id := Some 11;
       sentiment_label := Some (py_str "positive"); subjectivity := Some 0%Q |};
    {| row := review_great; product_id := Some 7; user_id := Some 10;
       sentiment_label := Some (py_str "positive"); subjectivity := Some 1%Q |};
    {| row := review_noisy; product_id := Some 8; user_id := Some 10;
       sentiment_label := None; subjectivity := None |} ].

Definition sample_users : list UserRow :=
  [ {| u_id := 10; username := py_str "ana"; user_city := None;
       user_province := None |};
    {| u_id := 11; username := py_str "budi"; user_city := Some (py_str "Medan");
       user_province := None |} ].

Definition sample_database : database :=
  {| users := sample_users; reviews := sample_rows |}.

(** [str.isspace] on U+0000..U+00FF. *)
Definition latin1_isspace (c : codepoint) : bool :=
  between 9 13 c || between 28 32 c
  || bool_decide (c = 133%N) || bool_decide (c = 160%N).

(** Four rows of the file: "ana" twice, a blank name, a missing name. *)
Definition sample_csv : list csv_row :=
  [ {| csv_username := Some (py_str "ana"); csv_user_city := None;
       csv_user_province := Some (py_str "Bali") |};
    {| csv_username := Some (py_str "  "); csv_user_city := Some (py_str "Solo");
       csv_user_province := None |};
    {| csv_username := Some (py_str "ana"); csv_user_city := Some (py_str "Ubud");
       csv_user_province := Some (py_str "Jawa") |};
    {| csv_username := None; csv_user_city := Some (py_str "Medan");
       csv_user_province := None |} ].

Definition sample_products : list ProductRow :=
  [ {| p_id := 1; p_name := Some (py_str " Grand Hotel ") |};
    {| p_id := 2; p_name := None |};
    {| p_id := 3; p_name := Some (py_str "Grand Hotel") |} ].

(** The ASCII letters, A to Z and a to z. *)
Definition ascii_letter (c : codepoint) : bool :=
  between 65 90 c || between 97 122 c.
(** * Properties *)

(** ** The normalizer *)

Section NormalizerFacts.
Context `{UnicodeData}.

Lemma word_run_word s : Forall (λ c, is_word c = true) (word_run s).
Proof.
  induction s as [|c s IH]; simpl; [constructor|].
  destruct (is_word c) eqn:Hc; constructor; assumption.
Qed.

Lemma word_run_subseteq s : word_run s ⊆ s.
Proof.
  induction s as [|c s IH]; simpl; [set_solver|].
  destruct (is_word c); set_solver.
Qed.

Lemma word_run_app t s :
  Forall (λ c, is_word c = true) t → word_run (t ++ s) = t ++ word_run s.
Proof.
  induction 1 as [|c t Hc _ IH]; simpl; [reflexivity|].
  rewrite Hc, IH. reflexivity.
Qed.

(** Every match is a non-empty run of word characters taken from the
    subject. *)
Lemma findall_from_token b s t :
  t ∈ findall_from b s →
  t ≠ [] ∧ Forall (λ c, is_word c = true) t ∧ t ⊆ s.
Proof.
  revert b. induction s as [|c s IH]; intros b; simpl.
  - intros Hin. inversion Hin.
  - destruct (is_word c && negb b) eqn:Hcb.
    + intros Hin. apply elem_of_cons in Hin as [->|Hin].
      * apply andb_true_iff in Hcb as [Hc _].
        split; [discriminate|]. split.
        -- constructor; [assumption|apply word_run_word].
        -- pose proof (word_run_subseteq s). set_solver.
      * destruct (IH _ Hin) as (? & ? & ?). repeat split; auto. set_solver.
    + intros Hin. destruct (IH _ Hin) as (? & ? & ?).
      repeat split; auto. set_solver.
Qed.

(** Inside a run no match starts. *)
Lemma findall_from_true_skip t s :
  Forall (λ c, is_word c = true) t →
  findall_from true (t ++ s) = findall_from true s.
Proof.
  induction 1 as [|c t Hc _ IH]; simpl; [reflexivity|].
  rewrite Hc. simpl. exact IH.
Qed.

Lemma findall_from_false_run c t s :
  is_word c = true → Forall (λ c, is_word c = true) t →
  findall_from false (c :: t ++ s)
  = (c :: t ++ word_run s) :: findall_from true s.
Proof.
  intros Hc Ht. simpl. rewrite Hc. simpl.
  rewrite word_run_app, findall_from_true_skip by assumption. reflexivity.
Qed.

(** A run of word characters is its own single match. *)
Lemma findall_single t :
  t ≠ [] → Forall (λ c, is_word c = true) t → WORD_PATTERN_findall t = [t].
Proof.
  intros Hne Ht. destruct t as [|c t]; [congruence|].
  inversion Ht as [|? ? Hc Ht']; subst.
  unfold WORD_PATTERN_findall.
  rewrite <- (app_nil_r t) at 1.
  rewrite findall_from_false_run by assumption.
  simpl. rewrite app_nil_r. reflexivity.
Qed.

Lemma is_word_space : is_word 32%N = false.
Proof.
  unfold is_word, isalnum. rewrite space_not_alnum. reflexivity.
Qed.

(** A run followed by a space: the run is the first match. *)
Lemma findall_run_space t s :
  t ≠ [] → Forall (λ c, is_word c = true) t →
  WORD_PATTERN_findall (t ++ 32%N :: s) = t :: WORD_PATTERN_findall s.
Proof.
  intros Hne Ht. destruct t as [|c t]; [congruence|].
  inversion Ht as [|? ? Hc Ht']; subst.
  unfold WORD_PATTERN_findall.
  rewrite <- app_comm_cons, findall_from_false_run by assumption.
  simpl. rewrite is_word_space. simpl. rewrite app_nil_r. reflexivity.
Qed.

Lemma lower_nil : lower [] = [].
Proof. apply (lower_stable []). set_solver. Qed.

Lemma extract_clean_words_Some s :
  extract_clean_words (Some s)
  = filter (λ t, keep_token t) (WORD_PATTERN_findall (lower s)).
Proof. destruct s; [by rewrite lower_nil|reflexivity]. Qed.

(** The tokens of the cleaned sequence are clean tokens cut from the
    lower-cased text. *)
Lemma extract_clean_words_tokens s :
  Forall (λ t, clean_token t ∧ t ⊆ lower s) (extract_clean_words (Some s)).
Proof.
  apply Forall_forall. intros t Ht.
  rewrite extract_clean_words_Some in Ht.
  apply list_elem_of_filter in Ht as [Hk Ht].
  apply Is_true_true in Hk.
  apply findall_from_token in Ht as (Hne & Hw & Hsub).
  by repeat split.
Qed.

Lemma extract_clean_words_clean text :
  Forall clean_token (extract_clean_words text).
Proof.
  destruct text as [s|]; [|constructor].
  eapply Forall_impl; [apply extract_clean_words_tokens|]. by intros t [? _].
Qed.

Lemma lower_token s t : t ⊆ lower s → lower t = t.
Proof. intros Hsub. apply (lower_stable s). set_solver. Qed.

Lemma extract_clean_token t :
  clean_token t → lower t = t → extract_clean_words (Some t) = [t].
Proof.
  intros (Hk & Hne & Hw) Hl.
  rewrite extract_clean_words_Some, Hl, findall_single by assumption.
  rewrite filter_cons, filter_nil. rewrite decide_True; [reflexivity|].
  apply Is_true_true, Hk.
Qed.

Lemma join_space_cons t t' ts :
  join_space (t :: t' :: ts) = t ++ 32%N :: join_space (t' :: ts).
Proof. reflexivity. Qed.

Lemma join_space_subseteq (L : str) (words : list str) :
  Forall (λ t, t ⊆ L) words → join_space words ⊆ 32%N :: L.
Proof.
  induction 1 as [|t ts Ht Hts IH]; [set_solver|].
  destruct ts as [|t' ts]; [simpl; set_solver|].
  rewrite join_space_cons. set_solver.
Qed.

(** The matches in clean tokens joined by spaces are the tokens. *)
Lemma findall_join_space words :
  Forall clean_token words →
  filter (λ t, keep_token t) (WORD_PATTERN_findall (join_space words)) = words.
Proof.
  induction 1 as [|t ts Ht Hts IH]; [reflexivity|].
  destruct Ht as (Hk & Hne & Hw).
  assert (keep_token t) as Hk' by (by apply Is_true_true).
  destruct ts as [|t' ts].
  - simpl. rewrite findall_single by assumption.
    by rewrite filter_cons, decide_True.
  - rewrite join_space_cons, findall_run_space by assumption.
    rewrite filter_cons, decide_True by assumption. by rewrite IH.
Qed.

(** What the three tests of the loop leave: tokens longer than two code
    points, outside the stopword set, with a code point of [[^\W\d_]], in
    the order of the matches. *)
Lemma extract_clean_words_filters text t :
  t ∈ extract_clean_words text →
  (2 < length t)%nat ∧ (t ∉ STOPWORDS) ∧ Exists (λ c, letter_class c = true) t.
Proof.
  intros Ht. pose proof (extract_clean_words_clean text) as Hc.
  apply (proj1 (Forall_forall _ _) Hc) in Ht as (Hk & _).
  unfold keep_token, search_letter in Hk.
  repeat case_bool_decide; simpl in Hk; try discriminate.
  repeat split; [lia|done|].
  eapply Exists_impl; [eassumption|]. intros c. apply Is_true_true.
Qed.

Lemma extract_clean_words_order s :
  extract_clean_words (Some s) `sublist_of` WORD_PATTERN_findall (lower s).
Proof. rewrite extract_clean_words_Some. apply sublist_filter. Qed.

Lemma count_letters_absent :
  count_letters None = 0%nat ∧ count_letters (Some []) = 0%nat.
Proof. split; reflexivity. Qed.

(** C9. Tokenization is idempotent: every token of the cleaned sequence is
    extracted again as itself, so extracting token by token gives the
    sequence back, and so does extracting from the tokens joined by
    spaces. *)
Theorem extract_clean_words_idempotent (text : option str) :
  let words := extract_clean_words text in
  Forall (λ t, extract_clean_words (Some t) = [t]) words
  ∧ words ≫= (λ t, extract_clean_words (Some t)) = words
  ∧ extract_clean_words (Some (join_space words)) = words.
Proof.
  intros words. destruct text as [s|]; [|by repeat constructor].
  pose proof (extract_clean_words_tokens s) as Hc. fold words in Hc.
  assert (Forall (λ t, extract_clean_words (Some t) = [t]) words) as Heach.
  { eapply Forall_impl; [exact Hc|]. intros t [Ht Hsub].
    by eapply extract_clean_token, lower_token. }
  split; [exact Heach|]. split.
  - clear Hc. induction Heach as [|t ts Ht _ IH]; [reflexivity|].
    by rewrite bind_cons, IH, Ht.
  - rewrite extract_clean_words_Some.
    rewrite (lower_stable s (join_space words)).
    + apply findall_join_space. eapply Forall_impl; [exact Hc|]. by intros t [? _].
    + apply join_space_subseteq. eapply Forall_impl; [exact Hc|]. by intros t [_ ?].
Qed.

End NormalizerFacts.

(** ** Counters *)

Lemma counter_update_keys w (c : Counter) :
  (counter_update w c).*1 = if decide (w ∈ c.*1) then c.*1 else c.*1 ++ [w].
Proof.
  induction c as [|[w' n] c IH].
  - destruct (decide (w ∈ ([] : Counter).*1)) as [Hin|_]; [inversion Hin|reflexivity].
  - cbn [counter_update]. rewrite !fmap_cons. cbn [fst].
    destruct (decide (w' = w)) as [->|Hne].
    + rewrite fmap_cons, decide_True; [reflexivity|]. apply elem_of_cons; auto.
    + rewrite fmap_cons, IH. cbn [fst]. destruct (decide (w ∈ c.*1)) as [Hin|Hin].
      * rewrite decide_True; [reflexivity|]. apply elem_of_cons; auto.
      * rewrite decide_False; [reflexivity|].
        intros [?|?]%elem_of_cons; congruence.
Qed.

Lemma counter_get_update w w' (c : Counter) :
  counter_get (counter_update w c) w'
  = (counter_get c w' + if decide (w = w') then 1 else 0)%nat.
Proof.
  induction c as [|[v n] c IH]; simpl.
  - destruct (decide (w = w')); reflexivity.
  - destruct (decide (v = w)) as [->|Hne]; simpl.
    + destruct (decide (w = w')); lia.
    + destruct (decide (v = w')) as [->|Hne'].
      * rewrite decide_False by congruence. lia.
      * apply IH.
Qed.

(** The entries of a counter are positive. *)
Lemma counter_update_pos w (c : Counter) :
  Forall (λ e, 0 < e.2)%nat c → Forall (λ e, 0 < e.2)%nat (counter_update w c).
Proof.
  induction 1 as [|[v n] c Hn Hc IH]; simpl.
  - repeat constructor.
  - destruct (decide (v = w)); constructor; simpl in *; auto; lia.
Qed.

Lemma counter_update_NoDup w (c : Counter) :
  NoDup c.*1 → NoDup (counter_update w c).*1.
Proof.
  intros Hc. rewrite counter_update_keys.
  destruct (decide (w ∈ c.*1)); [assumption|].
  apply NoDup_app. split; [assumption|]. split.
  - intros x Hx ->%list_elem_of_singleton. contradiction.
  - apply NoDup_singleton.
Qed.

Lemma counter_get_elem w n (c : Counter) :
  NoDup c.*1 → (w, n) ∈ c → counter_get c w = n.
Proof.
  induction c as [|[v m] c IH]; simpl; intros Hnd Hin.
  - inversion Hin.
  - apply NoDup_cons in Hnd as [Hv Hnd].
    apply elem_of_cons in Hin as [[= -> ->]|Hin].
    + rewrite decide_True; reflexivity.
    + rewrite decide_False; [auto|]. intros ->. apply Hv.
      apply list_elem_of_fmap. exists (w, n). auto.
Qed.

Lemma occurrences_cons w v l :
  occurrences w (v :: l) = ((if decide (v = w) then 1 else 0) + occurrences w l)%nat.
Proof.
  unfold occurrences. rewrite filter_cons. destruct (decide (v = w)); reflexivity.
Qed.

Lemma occurrences_app w l1 l2 :
  occurrences w (l1 ++ l2) = (occurrences w l1 + occurrences w l2)%nat.
Proof. unfold occurrences. rewrite filter_app, length_app. reflexivity. Qed.

Lemma count_words_get c stream w :
  counter_get (count_words c stream) w = (counter_get c w + occurrences w stream)%nat.
Proof.
  revert c. induction stream as [|v l IH]; intros c; simpl.
  - unfold occurrences. simpl. lia.
  - rewrite IH, counter_get_update, occurrences_cons. lia.
Qed.

Lemma count_words_pos c stream :
  Forall (λ e, 0 < e.2)%nat c → Forall (λ e, 0 < e.2)%nat (count_words c stream).
Proof.
  revert c. induction stream as [|v l IH]; intros c Hc; simpl; [assumption|].
  apply IH, counter_update_pos, Hc.
Qed.

Lemma count_words_NoDup c stream :
  NoDup c.*1 → NoDup (count_words c stream).*1.
Proof.
  revert c. induction stream as [|v l IH]; intros c Hc; simpl; [assumption|].
  apply IH, counter_update_NoDup, Hc.
Qed.

Lemma count_words_app c l1 l2 :
  count_words c (l1 ++ l2) = count_words (count_words c l1) l2.
Proof. apply foldl_app. Qed.

(** ** The scan of [word_frequency] *)

Lemma scan_word_pos ws words :
  ws_pos (foldl scan_word ws words)
  = count_words (ws_pos ws) (filter (λ w, w ∈ POSITIVE_WORDS) words).
Proof.
  revert ws. induction words as [|w l IH]; intros ws; [reflexivity|].
  cbn [foldl]. rewrite IH, filter_cons. unfold scan_word.
  destruct (decide (w ∈ POSITIVE_WORDS)) as [Hp|Hp].
  - rewrite (bool_decide_eq_true_2 _ Hp). case_bool_decide; reflexivity.
  - rewrite (bool_decide_eq_false_2 _ Hp). case_bool_decide; reflexivity.
Qed.

Lemma scan_word_neg ws words :
  ws_neg (foldl scan_word ws words)
  = count_words (ws_neg ws) (filter (λ w, w ∈ NEGATIVE_WORDS) words).
Proof.
  revert ws. induction words as [|w l IH]; intros ws; [reflexivity|].
  cbn [foldl]. rewrite IH, filter_cons. unfold scan_word.
  destruct (decide (w ∈ NEGATIVE_WORDS)) as [Hp|Hp].
  - rewrite (bool_decide_eq_true_2 _ Hp). case_bool_decide; reflexivity.
  - rewrite (bool_decide_eq_false_2 _ Hp). case_bool_decide; reflexivity.
Qed.

(** The flags of the inner loop: set exactly when a lexicon word is met. *)
Lemma scan_word_found_pos ws words :
  found_pos (foldl scan_word ws words)
  = found_pos ws || bool_decide (Exists (λ w, w ∈ POSITIVE_WORDS) words).
Proof.
  revert ws. induction words as [|w l IH]; intros ws.
  - cbn [foldl]. rewrite bool_decide_eq_false_2; [by rewrite orb_false_r|].
    by intros ?%Exists_nil.
  - cbn [foldl]. rewrite IH. unfold scan_word.
    destruct (decide (w ∈ POSITIVE_WORDS)) as [Hp|Hp].
    + rewrite (bool_decide_eq_true_2 _ Hp).
      rewrite (bool_decide_eq_true_2 (Exists _ (w :: l))) by (by left).
      destruct (bool_decide (w ∈ NEGATIVE_WORDS)); cbn [found_pos orb];
        by rewrite orb_true_r.
    + rewrite (bool_decide_eq_false_2 _ Hp).
      assert (bool_decide (Exists (λ w, w ∈ POSITIVE_WORDS) (w :: l))
              = bool_decide (Exists (λ w, w ∈ POSITIVE_WORDS) l)) as ->.
      { apply bool_decide_ext. rewrite Exists_cons. tauto. }
      destruct (bool_decide (w ∈ NEGATIVE_WORDS)); reflexivity.
Qed.

Lemma scan_word_found_neg ws words :
  found_neg (foldl scan_word ws words)
  = found_neg ws || bool_decide (Exists (λ w, w ∈ NEGATIVE_WORDS) words).
Proof.
  revert ws. induction words as [|w l IH]; intros ws.
  - cbn [foldl]. rewrite bool_decide_eq_false_2; [by rewrite orb_false_r|].
    by intros ?%Exists_nil.
  - cbn [foldl]. rewrite IH. unfold scan_word.
    destruct (decide (w ∈ NEGATIVE_WORDS)) as [Hp|Hp].
    + rewrite (bool_decide_eq_true_2 _ Hp).
      rewrite (bool_decide_eq_true_2 (Exists _ (w :: l))) by (by left).
      cbn [found_neg orb]. by rewrite orb_true_r.
    + rewrite (bool_decide_eq_false_2 _ Hp).
      assert (bool_decide (Exists (λ w, w ∈ NEGATIVE_WORDS) (w :: l))
              = bool_decide (Exists (λ w, w ∈ NEGATIVE_WORDS) l)) as ->.
      { apply bool_decide_ext. rewrite Exists_cons. tauto. }
      destruct (bool_decide (w ∈ POSITIVE_WORDS)); reflexivity.
Qed.

Lemma size_add_le (X : gset Z) (x : Z) : (size (X ∪ {[x]}) ≤ size X + 1)%nat.
Proof.
  destruct (decide (x ∈ X)).
  - replace (X ∪ {[x]}) with X by set_solver. lia.
  - rewrite size_union by set_solver. rewrite size_singleton. lia.
Qed.

Section ScanFacts.
Context `{UnicodeData}.

Lemma scan_review_pos_counter st r :
  pos_counter (scan_review st r)
  = count_words (pos_counter st) (filter (λ w, w ∈ POSITIVE_WORDS) (review_words r)).
Proof.
  unfold scan_review. fold (review_words r).
  destruct (review_words r) as [|w l] eqn:Hw; [reflexivity|].
  cbn [pos_counter]. by rewrite scan_word_pos.
Qed.

Lemma scan_review_neg_counter st r :
  neg_counter (scan_review st r)
  = count_words (neg_counter st) (filter (λ w, w ∈ NEGATIVE_WORDS) (review_words r)).
Proof.
  unfold scan_review. fold (review_words r).
  destruct (review_words r) as [|w l] eqn:Hw; [reflexivity|].
  cbn [neg_counter]. by rewrite scan_word_neg.
Qed.

Lemma scan_review_pos_hits st r :
  pos_hits (scan_review st r)
  = if bool_decide (Exists (λ w, w ∈ POSITIVE_WORDS) (review_words r))
    then pos_hits st ∪ {[review_id r]} else pos_hits st.
Proof.
  unfold scan_review. fold (review_words r).
  destruct (review_words r) as [|w l] eqn:Hw.
  - rewrite bool_decide_eq_false_2; [reflexivity|]. by intros ?%Exists_nil.
  - cbn [pos_hits]. by rewrite scan_word_found_pos.
Qed.

Lemma scan_review_neg_hits st r :
  neg_hits (scan_review st r)
  = if bool_decide (Exists (λ w, w ∈ NEGATIVE_WORDS) (review_words r))
    then neg_hits st ∪ {[review_id r]} else neg_hits st.
Proof.
  unfold scan_review. fold (review_words r).
  destruct (review_words r) as [|w l] eqn:Hw.
  - rewrite bool_decide_eq_false_2; [reflexivity|]. by intros ?%Exists_nil.
  - cbn [neg_hits]. by rewrite scan_word_found_neg.
Qed.

Lemma occurrences_filter (lexicon : list str) w l :
  occurrences w (filter (λ t, t ∈ lexicon) l)
  = if bool_decide (w ∈ lexicon) then occurrences w l else 0%nat.
Proof.
  induction l as [|v l IH].
  - by case_bool_decide.
  - rewrite filter_cons, occurrences_cons.
    destruct (decide (v ∈ lexicon)) as [Hv|Hv].
    + rewrite occurrences_cons, IH. case_bool_decide; [reflexivity|].
      rewrite decide_False by congruence. reflexivity.
    + rewrite IH. case_bool_decide; [|reflexivity].
      rewrite decide_False by congruence. reflexivity.
Qed.

End ScanFacts.

(** ** The stable descending sort behind [most_common] *)

Lemma insert_desc_perm x l : insert_desc x l ≡ₚ x :: l.
Proof.
  induction l as [|y l IH]; simpl; [reflexivity|].
  destruct (decide (y.2 ≤ x.2)%nat); [reflexivity|].
  rewrite IH. apply Permutation_swap.
Qed.

Lemma sorted_desc_perm l : sorted_desc l ≡ₚ l.
Proof.
  induction l as [|x l IH]; simpl; [reflexivity|].
  rewrite insert_desc_perm. by rewrite IH.
Qed.

Lemma insert_desc_sorted x l :
  StronglySorted (λ a b : str * nat, (b.2 ≤ a.2)%nat) l →
  StronglySorted (λ a b : str * nat, (b.2 ≤ a.2)%nat) (insert_desc x l).
Proof.
  induction 1 as [|y l Hl IH Hy]; simpl.
  - repeat constructor.
  - destruct (decide (y.2 ≤ x.2)%nat) as [Hle|Hgt].
    + constructor; [by constructor|].
      constructor; [assumption|].
      eapply Forall_impl; [exact Hy|]. simpl. intros; lia.
    + constructor; [assumption|].
      rewrite insert_desc_perm. constructor; [lia|assumption].
Qed.

Lemma sorted_desc_sorted l :
  StronglySorted (λ a b : str * nat, (b.2 ≤ a.2)%nat) (sorted_desc l).
Proof.
  induction l as [|x l IH]; simpl; [constructor|by apply insert_desc_sorted].
Qed.

(** [a] stands before [b] in [l]: the two form a sublist. *)
Lemma sublist_pair_cons {A} (a b x : A) l :
  [a; b] `sublist_of` x :: l ↔ (a = x ∧ b ∈ l) ∨ [a; b] `sublist_of` l.
Proof.
  split.
  - intros Hs. apply sublist_cons_r in Hs as [Hs|(l' & [= -> <-] & Hs)]; [by right|].
    left. split; [reflexivity|]. by apply sublist_cons_l in Hs as (? & ? & -> & _); set_solver.
  - intros [[-> Hb]|Hs].
    + apply sublist_skip. apply list_elem_of_split in Hb as (l1 & l2 & ->).
      apply sublist_inserts_l, sublist_skip, sublist_nil_l.
    + by apply sublist_cons.
Qed.

Lemma insert_desc_stable x l a b :
  [a; b] `sublist_of` insert_desc x l → a.2 = b.2 → [a; b] `sublist_of` x :: l.
Proof.
  induction l as [|y l IH]; simpl; [done|].
  destruct (decide (y.2 ≤ x.2)%nat) as [Hle|Hgt]; [done|].
  intros Hs Heq. apply sublist_pair_cons in Hs as [[-> Hb]|Hs].
  - rewrite insert_desc_perm in Hb. apply elem_of_cons in Hb as [->|Hb]; [lia|].
    apply sublist_cons, sublist_pair_cons. by left.
  - specialize (IH Hs Heq). apply sublist_pair_cons in IH as [[-> Hb]|IH].
    + apply sublist_pair_cons. left. split; [done|]. set_solver.
    + by do 2 apply sublist_cons.
Qed.

(** The sort is stable: entries of equal count keep their order. *)
Lemma sorted_desc_stable l a b :
  [a; b] `sublist_of` sorted_desc l → a.2 = b.2 → [a; b] `sublist_of` l.
Proof.
  induction l as [|x l IH]; simpl; [done|].
  intros Hs Heq. apply insert_desc_stable in Hs; [|done].
  apply sublist_pair_cons in Hs as [[-> Hb]|Hs].
  - apply sublist_pair_cons. left. split; [done|]. by rewrite sorted_desc_perm in Hb.
  - apply sublist_cons. by apply IH.
Qed.

Lemma lookup_sublist_pair {A} (l : list A) i j a b :
  (i < j)%nat → l !! i = Some a → l !! j = Some b → [a; b] `sublist_of` l.
Proof.
  revert i j. induction l as [|x l IH]; intros i j Hij Hi Hj; [done|].
  destruct i as [|i].
  - destruct j as [|j]; [lia|]. simpl in *. simplify_eq.
    apply sublist_pair_cons. left. split; [done|]. by eapply list_elem_of_lookup_2.
  - destruct j as [|j]; [lia|]. simpl in *.
    apply sublist_cons. eapply (IH i j); [lia|done..].
Qed.

(** ** The order of the keys of a counter *)

Lemma count_words_snoc c s w :
  count_words c (s ++ [w]) = counter_update w (count_words c s).
Proof. by rewrite count_words_app. Qed.

Lemma count_words_keys_elem s x : x ∈ (count_words [] s).*1 ↔ x ∈ s.
Proof.
  induction s as [|w s IH] using rev_ind.
  - simpl. split; inversion 1.
  - rewrite count_words_snoc, counter_update_keys.
    destruct (decide (w ∈ (count_words [] s).*1)) as [Hw|Hw].
    + rewrite IH in *. set_solver.
    + rewrite !elem_of_app, IH. reflexivity.
Qed.

Lemma encountered_before_snoc s w a b :
  encountered_before s a b → encountered_before (s ++ [w]) a b.
Proof.
  intros (Hne & l1 & l2 & -> & Hb). split; [done|].
  exists l1, (l2 ++ [w]). split; [|done]. by rewrite <- app_assoc.
Qed.

(** The keys of a counter stand in the order in which the words were
    first met. *)
Lemma count_words_keys_order s a b :
  [a; b] `sublist_of` (count_words [] s).*1 → encountered_before s a b.
Proof.
  induction s as [|w s IH] using rev_ind.
  - simpl. intros Hs. by apply sublist_nil_r in Hs.
  - rewrite count_words_snoc, counter_update_keys.
    destruct (decide (w ∈ (count_words [] s).*1)) as [Hw|Hw].
    + intros Hs. by apply encountered_before_snoc, IH.
    + intros Hs. apply sublist_app_r in Hs as (k1 & k2 & Hk & Hk1 & Hk2).
      apply sublist_cons_r in Hk2 as [Hk2|(k' & -> & Hk2)].
      * apply sublist_nil_r in Hk2 as ->. rewrite app_nil_r in Hk. subst k1.
        by apply encountered_before_snoc, IH.
      * apply sublist_nil_r in Hk2 as ->.
        destruct k1 as [|a' [|a'' k1]]; simpl in Hk;
          [discriminate| |by destruct k1; inversion Hk].
        injection Hk as <- <-.
        assert (a ∈ s) as Ha.
        { apply count_words_keys_elem. apply (sublist_subseteq _ _ Hk1).
          apply list_elem_of_here. }
        rewrite count_words_keys_elem in Hw.
        split; [intros ->; contradiction|].
        apply list_elem_of_split in Ha as (l1 & l2 & ->).
        exists l1, (l2 ++ [b]). split; [by rewrite <- app_assoc|].
        set_solver.
Qed.

(** ** The top-word lists *)

Lemma most_common_ranked k stream :
  ranked k stream (most_common k (count_words [] stream)).
Proof.
  set (c := count_words [] stream).
  assert (NoDup c.*1) as Hnd by (apply count_words_NoDup; constructor).
  assert (Forall (λ e, 0 < e.2)%nat c) as Hpos by (apply count_words_pos; constructor).
  assert (∀ e, e ∈ sorted_desc c ↔ e ∈ c) as Hin
    by (intros e; by rewrite sorted_desc_perm).
  pose proof (sorted_desc_sorted c) as Hsorted.
  rewrite <- (take_drop (Z.to_nat k) (sorted_desc c)) in Hsorted.
  assert (∀ w n, (w, n) ∈ c → n = occurrences w stream ∧ (0 < n)%nat) as Hcount.
  { intros w n Hwn. split.
    - rewrite <- (counter_get_elem w n c Hnd Hwn). unfold c.
      by rewrite count_words_get.
    - by apply (proj1 (Forall_forall _ _) Hpos (w, n)). }
  unfold most_common. split.
  - rewrite length_take. lia.
  - intros w n Hwn. apply Hcount, Hin.
    by apply (sublist_subseteq _ _ (sublist_take _ (Z.to_nat k))).
  - rewrite fmap_take.
    apply (sublist_NoDup _ (sorted_desc c).*1); [|apply sublist_take].
    by rewrite sorted_desc_perm.
  - by eapply StronglySorted_app_1_l.
  - intros i j a b Hij Ha Hb Heq.
    apply count_words_keys_order. fold c.
    apply (fmap_sublist fst [a; b]).
    apply sorted_desc_stable; [|done].
    etransitivity; [|apply (sublist_take _ (Z.to_nat k))].
    by eapply lookup_sublist_pair.
  - intros w Hw Hout.
    apply count_words_keys_elem in Hw. fold c in Hw.
    apply list_elem_of_fmap in Hw as ([w' n] & -> & Hwn). simpl in *.
    destruct (Hcount _ _ Hwn) as [<- _].
    assert ((w', n) ∈ drop (Z.to_nat k) (sorted_desc c)) as Hdrop.
    { apply Hin in Hwn. rewrite <- (take_drop (Z.to_nat k)) in Hwn.
      apply elem_of_app in Hwn as [Ht|Hd]; [|done].
      destruct Hout. apply list_elem_of_fmap. by exists (w', n). }
    split.
    + rewrite length_take. apply Nat.min_l.
      destruct (decide (Z.to_nat k ≤ length (sorted_desc c))%nat); [done|].
      rewrite drop_ge in Hdrop by lia. inversion Hdrop.
    + intros a Ha. by apply (StronglySorted_app_1_elem_of _ _ _ _ _ Hsorted Ha Hdrop).
Qed.

Section TopWords.
Context `{UnicodeData}.

Lemma lexicon_stream_cons lexicon r reviews :
  lexicon_stream lexicon (r :: reviews)
  = filter (λ w, w ∈ lexicon) (review_words r) ++ lexicon_stream lexicon reviews.
Proof. reflexivity. Qed.

Lemma scan_pos_counter st reviews :
  pos_counter (foldl scan_review st reviews)
  = count_words (pos_counter st) (lexicon_stream POSITIVE_WORDS reviews).
Proof.
  revert st. induction reviews as [|r l IH]; intros st; [reflexivity|].
  cbn [foldl]. rewrite IH, scan_review_pos_counter, lexicon_stream_cons.
  by rewrite count_words_app.
Qed.

Lemma scan_neg_counter st reviews :
  neg_counter (foldl scan_review st reviews)
  = count_words (neg_counter st) (lexicon_stream NEGATIVE_WORDS reviews).
Proof.
  revert st. induction reviews as [|r l IH]; intros st; [reflexivity|].
  cbn [foldl]. rewrite IH, scan_review_neg_counter, lexicon_stream_cons.
  by rewrite count_words_app.
Qed.


End TopWords.

(** ** What one more review adds to the result *)

Lemma counter_get_absent (c : Counter) w : w ∉ c.*1 → counter_get c w = 0%nat.
Proof.
  induction c as [|[v n] c IH]; [reflexivity|]. cbn [counter_get].
  rewrite fmap_cons. cbn [fst]. intros Hw.
  rewrite decide_False by (intros ->; apply Hw; left).
  apply IH. intros Hin. apply Hw. by right.
Qed.

Lemma counter_get_perm (c c' : Counter) w :
  NoDup c.*1 → c ≡ₚ c' → counter_get c w = counter_get c' w.
Proof.
  intros Hnd Hp.
  assert (NoDup c'.*1) as Hnd' by (by rewrite <- Hp).
  destruct (decide (w ∈ c.*1)) as [Hin|Hout].
  - apply list_elem_of_fmap in Hin as ([w' n] & -> & Hwn). cbn [fst].
    rewrite (counter_get_elem w' n c Hnd Hwn).
    symmetry. apply counter_get_elem; [done|]. by rewrite <- Hp.
  - rewrite !counter_get_absent; [done| |done]. by rewrite <- Hp.
Qed.

(** With [k] at least the size of the lexicon the list is not cut: it
    reports every counted word, with its number of occurrences. *)
Lemma listed_count_uncut (lexicon stream : list str) k w :
  stream ⊆ lexicon → NoDup lexicon → Z.of_nat (length lexicon) ≤ k →
  listed_count (most_common k (count_words [] stream)) w = occurrences w stream.
Proof.
  intros Hsub Hlex Hk. unfold listed_count, most_common.
  set (c := count_words [] stream).
  assert (NoDup c.*1) as Hnd by (apply count_words_NoDup; constructor).
  assert (length c ≤ length lexicon)%nat as Hlen.
  { rewrite <- (length_fmap fst c). apply submseteq_length.
    apply NoDup_submseteq; [done|]. intros x Hx. apply Hsub.
    by apply count_words_keys_elem. }
  rewrite take_ge by (rewrite sorted_desc_perm; lia).
  rewrite <- (counter_get_perm c (sorted_desc c) w Hnd)
    by (by rewrite sorted_desc_perm).
  unfold c. by rewrite count_words_get.
Qed.

Lemma POSITIVE_WORDS_NoDup : NoDup POSITIVE_WORDS.
Proof. apply (bool_decide_unpack _). by vm_compute. Qed.

Lemma NEGATIVE_WORDS_NoDup : NoDup NEGATIVE_WORDS.
Proof. apply (bool_decide_unpack _). by vm_compute. Qed.

Section ReviewIncrement.
Context `{UnicodeData}.

Lemma word_frequency_query_app db1 db2 s e :
  word_frequency_query (db1 ++ db2) s e
  = word_frequency_query db1 s e ++ word_frequency_query db2 s e.
Proof. unfold word_frequency_query. by rewrite !filter_app. Qed.

Lemma word_frequency_query_insert db1 db2 r s e :
  word_frequency_query [r] s e = [r] →
  word_frequency_query (db1 ++ r :: db2) s e
  = word_frequency_query db1 s e ++ r :: word_frequency_query db2 s e.
Proof.
  intros Hr. rewrite word_frequency_query_app.
  change (r :: db2) with ([r] ++ db2).
  by rewrite word_frequency_query_app, Hr.
Qed.

Lemma lexicon_stream_app lexicon l1 l2 :
  lexicon_stream lexicon (l1 ++ l2)
  = lexicon_stream lexicon l1 ++ lexicon_stream lexicon l2.
Proof. unfold lexicon_stream. apply bind_app. Qed.

Lemma lexicon_stream_elem lexicon reviews w :
  w ∈ lexicon_stream lexicon reviews → w ∈ lexicon.
Proof.
  unfold lexicon_stream. intros (r & Hw & _)%list_elem_of_bind.
  by apply list_elem_of_filter in Hw as [? _].
Qed.

(** The occurrences of a word in the scan: those in the other reviews and
    those in the review, when the word is of the lexicon. *)
Lemma lexicon_stream_insert lexicon l1 r l2 w :
  occurrences w (lexicon_stream lexicon (l1 ++ r :: l2))
  = (occurrences w (lexicon_stream lexicon (l1 ++ l2))
     + if bool_decide (w ∈ lexicon) then occurrences w (review_words r)
       else 0)%nat.
Proof.
  rewrite !lexicon_stream_app, lexicon_stream_cons, !occurrences_app.
  rewrite occurrences_filter. lia.
Qed.

Lemma scan_pos_hits st reviews :
  pos_hits (foldl scan_review st reviews)
  = pos_hits st ∪ hit_ids POSITIVE_WORDS reviews.
Proof.
  revert st. induction reviews as [|r l IH]; intros st.
  - unfold hit_ids. simpl. set_solver.
  - cbn [foldl]. rewrite IH, scan_review_pos_hits. unfold hit_ids.
    rewrite filter_cons. unfold has_lexicon_word at 2.
    case_bool_decide as Hr.
    + rewrite decide_True by done. rewrite fmap_cons, list_to_set_cons. set_solver.
    + by rewrite decide_False by done.
Qed.

Lemma scan_neg_hits st reviews :
  neg_hits (foldl scan_review st reviews)
  = neg_hits st ∪ hit_ids NEGATIVE_WORDS reviews.
Proof.
  revert st. induction reviews as [|r l IH]; intros st.
  - unfold hit_ids. simpl. set_solver.
  - cbn [foldl]. rewrite IH, scan_review_neg_hits. unfold hit_ids.
    rewrite filter_cons. unfold has_lexicon_word at 2.
    case_bool_decide as Hr.
    + rewrite decide_True by done. rewrite fmap_cons, list_to_set_cons. set_solver.
    + by rewrite decide_False by done.
Qed.

(** The ids of the reviews with a hit: those of the other reviews, and
    the id of the review when it holds a word of the lexicon. *)
Lemma hit_ids_insert lexicon l1 r l2 :
  hit_ids lexicon (l1 ++ r :: l2)
  = hit_ids lexicon (l1 ++ l2)
    ∪ (if decide (has_lexicon_word lexicon r) then {[review_id r]} else ∅).
Proof.
  unfold hit_ids. rewrite !filter_app, filter_cons.
  destruct (decide (has_lexicon_word lexicon r)).
  - rewrite !fmap_app, fmap_cons, !list_to_set_app_L, list_to_set_cons.
    set_solver.
  - by rewrite (right_id_L ∅ (∪)).
Qed.

Lemma hit_ids_insert_size lexicon l1 r l2 :
  (size (hit_ids lexicon (l1 ++ l2)) ≤ size (hit_ids lexicon (l1 ++ r :: l2))
   ≤ size (hit_ids lexicon (l1 ++ l2)) + 1)%nat
  ∧ (¬ has_lexicon_word lexicon r →
     size (hit_ids lexicon (l1 ++ r :: l2)) = size (hit_ids lexicon (l1 ++ l2))).
Proof.
  rewrite hit_ids_insert. destruct (decide (has_lexicon_word lexicon r)).
  - split; [|done]. split; [apply subseteq_size; set_solver|apply size_add_le].
  - rewrite (right_id_L ∅ (∪)). split; [lia|done].
Qed.

Lemma hit_ids_insert_fresh lexicon l1 r l2 :
  has_lexicon_word lexicon r → review_id r ∉ review_id <$> (l1 ++ l2) →
  size (hit_ids lexicon (l1 ++ r :: l2)) = S (size (hit_ids lexicon (l1 ++ l2))).
Proof.
  intros Hr Hid. rewrite hit_ids_insert, decide_True by done.
  rewrite size_union, size_singleton; [lia|].
  apply disjoint_singleton_r. unfold hit_ids. rewrite elem_of_list_to_set.
  intros Hin. apply Hid.
  apply list_elem_of_fmap in Hin as (r' & -> & Hr').
  apply list_elem_of_filter in Hr' as [_ Hr'].
  apply list_elem_of_fmap. by exists r'.
Qed.

Lemma word_frequency_query_subseteq db s e :
  word_frequency_query db s e ⊆ db.
Proof.
  unfold word_frequency_query. intros r.
  rewrite !list_elem_of_filter. tauto.
Qed.

(** C4. A scanned review whose cleaned token sequence holds a lexicon word
    [n] times raises the count that the operation reports for that word by
    exactly [n], and raises the reported number of reviews with a hit by
    at most one (by nothing when it holds no word of the lexicon, by one
    when it holds one and no other row has its id), wherever the review
    stands in the table; the same on the negative side.  The
    operation is compared on the table with and without the review; a
    list reports every counted word when [top_k] is at least the size of
    the lexicon, and two listed counts of the word differ by [n] for any
    [top_k]. *)
Theorem word_frequency_review_increments (db1 db2 : list Review) (r : Review)
    (start_date end_date : option datetime) (k : Z) (w : str) :
  let before := word_frequency (db1 ++ db2) start_date end_date k in
  let after := word_frequency (db1 ++ r :: db2) start_date end_date k in
  let n := occurrences w (review_words r) in
  word_frequency_query [r] start_date end_date = [r] →
  total_reviews_scanned after = S (total_reviews_scanned before)
  ∧ (Z.of_nat (length POSITIVE_WORDS) ≤ k →
     listed_count (positive_top_words after) w
     = (listed_count (positive_top_words before) w
        + if bool_decide (w ∈ POSITIVE_WORDS) then n else 0)%nat)
  ∧ (∀ c c', (w, c) ∈ positive_top_words before →
             (w, c') ∈ positive_top_words after → c' = (c + n)%nat)
  ∧ (reviews_with_positive_words before ≤ reviews_with_positive_words after
     ≤ reviews_with_positive_words before + 1)%nat
  ∧ (¬ has_lexicon_word POSITIVE_WORDS r →
     reviews_with_positive_words after = reviews_with_positive_words before)
  ∧ (has_lexicon_word POSITIVE_WORDS r →
     review_id r ∉ review_id <$> (db1 ++ db2) →
     reviews_with_positive_words after
     = S (reviews_with_positive_words before))
  ∧ (Z.of_nat (length NEGATIVE_WORDS) ≤ k →
     listed_count (negative_top_words after) w
     = (listed_count (negative_top_words before) w
        + if bool_decide (w ∈ NEGATIVE_WORDS) then n else 0)%nat)
  ∧ (∀ c c', (w, c) ∈ negative_top_words before →
             (w, c') ∈ negative_top_words after → c' = (c + n)%nat)
  ∧ (reviews_with_negative_words before ≤ reviews_with_negative_words after
     ≤ reviews_with_negative_words before + 1)%nat
  ∧ (¬ has_lexicon_word NEGATIVE_WORDS r →
     reviews_with_negative_words after = reviews_with_negative_words before)
  ∧ (has_lexicon_word NEGATIVE_WORDS r →
     review_id r ∉ review_id <$> (db1 ++ db2) →
     reviews_with_negative_words after
     = S (reviews_with_negative_words before)).
Proof.
  intros before after n Hr. subst before after n. unfold word_frequency.
  rewrite (word_frequency_query_insert db1 db2 r _ _ Hr).
  rewrite word_frequency_query_app.
  set (l1 := word_frequency_query db1 start_date end_date).
  set (l2 := word_frequency_query db2 start_date end_date).
  cbn [total_reviews_scanned positive_top_words negative_top_words
       reviews_with_positive_words reviews_with_negative_words].
  rewrite !scan_pos_counter, !scan_neg_counter, !scan_pos_hits, !scan_neg_hits.
  cbn [scan_init pos_counter neg_counter pos_hits neg_hits].
  rewrite !(left_id_L ∅ (∪)).
  assert (∀ lexicon c c',
            (w, c) ∈ most_common k (count_words [] (lexicon_stream lexicon (l1 ++ l2))) →
            (w, c') ∈ most_common k
                        (count_words [] (lexicon_stream lexicon (l1 ++ r :: l2))) →
            c' = (c + occurrences w (review_words r))%nat) as Hlisted.
  { intros lexicon c c' Hc Hc'.
    destruct (ranked_counts _ _ _ (most_common_ranked k _) w c Hc) as [-> Hpos].
    destruct (ranked_counts _ _ _ (most_common_ranked k _) w c' Hc') as [-> _].
    rewrite lexicon_stream_insert. rewrite bool_decide_eq_true_2; [done|].
    apply (lexicon_stream_elem lexicon (l1 ++ l2)).
    unfold occurrences in Hpos.
    destruct (filter (λ t, t = w) (lexicon_stream lexicon (l1 ++ l2)))
      as [|t f] eqn:Hf; [simpl in Hpos; lia|].
    assert (t ∈ filter (λ t, t = w) (lexicon_stream lexicon (l1 ++ l2))) as Ht
      by (rewrite Hf; left).
    by apply list_elem_of_filter in Ht as [-> ?]. }
  assert (review_id r ∉ review_id <$> (db1 ++ db2) →
          review_id r ∉ review_id <$> (l1 ++ l2)) as Hfresh.
  { intros Hid Hin. apply Hid.
    apply list_elem_of_fmap in Hin as (r' & -> & Hr').
    apply list_elem_of_fmap. exists r'. split; [done|].
    rewrite elem_of_app in Hr' |- *.
    destruct Hr' as [Hr'|Hr']; [left|right];
      by eapply word_frequency_query_subseteq. }
  split; [rewrite !length_app; simpl; lia|].
  split; [|split; [|split; [|split; [|split]]]].
  - intros Hk.
    rewrite !(listed_count_uncut POSITIVE_WORDS)
      by (done || apply POSITIVE_WORDS_NoDup
          || (intros x; apply lexicon_stream_elem)).
    apply lexicon_stream_insert.
  - apply (Hlisted POSITIVE_WORDS).
  - apply hit_ids_insert_size.
  - apply hit_ids_insert_size.
  - intros Hw Hid. by apply hit_ids_insert_fresh, Hfresh.
  - split; [|split; [|split; [|split]]].
    + intros Hk.
      rewrite !(listed_count_uncut NEGATIVE_WORDS)
        by (done || apply NEGATIVE_WORDS_NoDup
            || (intros x; apply lexicon_stream_elem)).
      apply lexicon_stream_insert.
    + apply (Hlisted NEGATIVE_WORDS).
    + apply hit_ids_insert_size.
    + apply hit_ids_insert_size.
    + intros Hw Hid. by apply hit_ids_insert_fresh, Hfresh.
Qed.

End ReviewIncrement.

(** ** The calendar *)

Lemma days_before_year_succ y :
  365 ≤ days_before_year (y + 1) - days_before_year y ≤ 366.
Proof.
  unfold days_before_year. cbv zeta.
  replace (y + 1 - 1) with y by lia.
  Z.div_mod_to_equations. lia.
Qed.

Lemma month_start_succ k : month_start k < month_start (k + 1).
Proof.
  unfold month_start, ymd2ord.
  pose proof (Z.mod_pos_bound k 12 ltac:(lia)) as Hm.
  destruct (decide (k `mod` 12 = 11)) as [H11|H11].
  - assert ((k + 1) `div` 12 = k `div` 12 + 1 ∧ (k + 1) `mod` 12 = 0) as [-> ->]
      by (Z.div_mod_to_equations; lia).
    rewrite H11. pose proof (days_before_year_succ (k `div` 12)).
    unfold days_before_month. simpl. destruct (is_leap (k `div` 12)); simpl; lia.
  - assert ((k + 1) `div` 12 = k `div` 12 ∧ (k + 1) `mod` 12 = k `mod` 12 + 1) as [-> ->]
      by (Z.div_mod_to_equations; lia).
    generalize (k `div` 12) as y. intros y.
    assert (k `mod` 12 ∈ [0; 1; 2; 3; 4; 5; 6; 7; 8; 9; 10]) as Hcases.
    { rewrite !elem_of_cons. lia. }
    unfold days_before_month.
    repeat (apply elem_of_cons in Hcases as [->|Hcases];
            [simpl; destruct (is_leap y); lia|]).
    inversion Hcases.
Qed.

Lemma month_start_mono k1 k2 : k1 < k2 → month_start k1 < month_start k2.
Proof.
  intros Hlt.
  assert (∀ n : nat, month_start k1 < month_start (k1 + 1 + Z.of_nat n)) as Hn.
  { induction n as [|n IH].
    - replace (k1 + 1 + Z.of_nat 0) with (k1 + 1) by lia. apply month_start_succ.
    - etransitivity; [exact IH|].
      replace (k1 + 1 + Z.of_nat (S n)) with (k1 + 1 + Z.of_nat n + 1) by lia.
      apply month_start_succ. }
  specialize (Hn (Z.to_nat (k2 - k1 - 1))).
  by replace (k1 + 1 + Z.of_nat (Z.to_nat (k2 - k1 - 1))) with k2 in Hn by lia.
Qed.

(** Later buckets start later. *)
Lemma bucket_start_mono interval k1 k2 :
  k1 < k2 → bucket_start interval k1 < bucket_start interval k2.
Proof.
  intros Hlt. unfold bucket_start. repeat case_decide; [lia..|].
  by apply month_start_mono.
Qed.

(** A timestamp is not earlier than the start of its bucket. *)
Lemma bucket_start_le interval d :
  1 ≤ month d ≤ 12 → 1 ≤ day d →
  bucket_start interval (bucket_key interval d) ≤ toordinal d.
Proof.
  intros Hm Hd. unfold bucket_start, bucket_key, month_start. repeat case_decide.
  - lia.
  - Z.div_mod_to_equations. lia.
  - assert ((year d * 12 + (month d - 1)) `div` 12 = year d
            ∧ (year d * 12 + (month d - 1)) `mod` 12 + 1 = month d) as [-> ->]
      by (Z.div_mod_to_equations; lia).
    unfold toordinal, ymd2ord. lia.
Qed.

(** The first day of a month and the days of the month. *)
Lemma days_before_year_step y :
  days_before_year (y + 1) - days_before_year y = if is_leap y then 366 else 365.
Proof.
  unfold days_before_year, is_leap. cbv zeta.
  replace (y + 1 - 1) with y by lia.
  repeat case_bool_decide; cbn [andb orb negb]; Z.div_mod_to_equations; lia.
Qed.

Lemma month_span k :
  month_start (k + 1) - month_start k = days_in_month (k `div` 12) (k `mod` 12 + 1).
Proof.
  unfold month_start, ymd2ord.
  pose proof (Z.mod_pos_bound k 12 ltac:(lia)) as Hm.
  destruct (decide (k `mod` 12 = 11)) as [H11|H11].
  - assert ((k + 1) `div` 12 = k `div` 12 + 1 ∧ (k + 1) `mod` 12 = 0) as [-> ->]
      by (Z.div_mod_to_equations; lia).
    rewrite H11. pose proof (days_before_year_step (k `div` 12)).
    unfold days_before_month, days_in_month. simpl.
    destruct (is_leap (k `div` 12)); simpl; lia.
  - assert ((k + 1) `div` 12 = k `div` 12 ∧ (k + 1) `mod` 12 = k `mod` 12 + 1) as [-> ->]
      by (Z.div_mod_to_equations; lia).
    generalize (k `div` 12) as y. intros y.
    assert (k `mod` 12 ∈ [0; 1; 2; 3; 4; 5; 6; 7; 8; 9; 10]) as Hcases.
    { rewrite !elem_of_cons. lia. }
    unfold days_before_month, days_in_month.
    repeat (apply elem_of_cons in Hcases as [->|Hcases];
            [simpl; destruct (is_leap y); simpl; lia|]).
    inversion Hcases.
Qed.

Lemma month_key_fields (d : datetime) :
  1 ≤ month d ≤ 12 →
  (year d * 12 + (month d - 1)) `div` 12 = year d
  ∧ (year d * 12 + (month d - 1)) `mod` 12 + 1 = month d.
Proof. intros Hm. Z.div_mod_to_equations. lia. Qed.

(** A valid timestamp lies in its month. *)
Lemma toordinal_in_month (d : datetime) :
  valid_date d →
  let k := year d * 12 + (month d - 1) in
  month_start k ≤ toordinal d < month_start (k + 1).
Proof.
  intros (_ & Hm & Hd) k.
  pose proof (month_span k) as Hspan.
  destruct (month_key_fields d Hm) as [Hy Hmo]. fold k in Hy, Hmo.
  rewrite Hy, Hmo in Hspan.
  assert (toordinal d = month_start k + (day d - 1)) as ->.
  { unfold month_start, toordinal, ymd2ord. rewrite Hy, Hmo. lia. }
  lia.
Qed.

(** Valid timestamps of one ordinal are of one date. *)
Lemma toordinal_inj (d1 d2 : datetime) :
  valid_date d1 → valid_date d2 → toordinal d1 = toordinal d2 →
  year d1 = year d2 ∧ month d1 = month d2 ∧ day d1 = day d2.
Proof.
  intros Hv1 Hv2 Heq.
  pose proof (toordinal_in_month d1 Hv1) as H1.
  pose proof (toordinal_in_month d2 Hv2) as H2. cbv zeta in H1, H2.
  set (k1 := year d1 * 12 + (month d1 - 1)) in *.
  set (k2 := year d2 * 12 + (month d2 - 1)) in *.
  assert (k1 = k2) as Hk.
  { destruct (Z.lt_trichotomy k1 k2) as [Hlt|[?|Hlt]]; [|done|].
    - destruct (decide (k1 + 1 = k2)) as [<-|?]; [lia|].
      pose proof (month_start_mono (k1 + 1) k2 ltac:(lia)). lia.
    - destruct (decide (k2 + 1 = k1)) as [<-|?]; [lia|].
      pose proof (month_start_mono (k2 + 1) k1 ltac:(lia)). lia. }
  destruct Hv1 as (_ & Hm1 & _), Hv2 as (_ & Hm2 & _).
  assert (year d1 = year d2 ∧ month d1 = month d2) as [Hy Hm]
    by (unfold k1, k2 in Hk; lia).
  split; [done|]. split; [done|].
  unfold toordinal, ymd2ord in Heq. rewrite Hy, Hm in Heq. lia.
Qed.

(** The keys of the buckets are the buckets of the calendar. *)
Lemma bucket_key_same interval (d1 d2 : datetime) :
  valid_date d1 → valid_date d2 →
  bucket_key interval d1 = bucket_key interval d2 ↔ same_bucket interval d1 d2.
Proof.
  intros Hv1 Hv2. unfold bucket_key, same_bucket, weekday.
  repeat case_decide.
  - split; [by apply toordinal_inj|].
    intros (Hy & Hm & Hd). unfold toordinal. by rewrite Hy, Hm, Hd.
  - Z.div_mod_to_equations. lia.
  - destruct Hv1 as (_ & Hm1 & _), Hv2 as (_ & Hm2 & _). lia.
Qed.

Lemma bucket_start_first_day interval (d : datetime) :
  valid_date d →
  bucket_start interval (bucket_key interval d) = first_day interval d.
Proof.
  intros (_ & Hm & _). unfold bucket_start, bucket_key, first_day, weekday.
  repeat case_decide.
  - done.
  - Z.div_mod_to_equations. lia.
  - unfold month_start. by destruct (month_key_fields d Hm) as [-> ->].
Qed.

(** ** Doubles

    The operations of [float] are specified on [spec_float], the binary64
    values written out as sign, mantissa and exponent. *)

Lemma div_eucl_mul (q b : Z) : 0 < b → Z.div_eucl (q * b) b = (q, 0).
Proof.
  intros Hb.
  assert (Z.div_eucl (q * b) b = ((q * b) `div` b, (q * b) `mod` b)) as ->.
  { unfold Z.div, Z.modulo. by destruct (Z.div_eucl (q * b) b). }
  rewrite Z.div_mul, Z.mod_mul by lia. reflexivity.
Qed.

(** The quotient of a double by 1 is the double: nothing is rounded. *)
Lemma SFdiv_one s m e :
  bounded prec emax m e = true →
  SFdiv prec emax (S754_finite s m e) (S754_finite false 4503599627370496 (-52))
  = S754_finite s m e.
Proof.
  intros Hb. unfold bounded, canonical_mantissa in Hb.
  apply andb_true_iff in Hb as [Hc He].
  apply Z.eqb_eq in Hc. apply Z.leb_le in He.
  unfold SFdiv, SFdiv_core_binary.
  change (Zdigits2 4503599627370496 + -52) with 1.
  change (Zdigits2 (Z.pos m)) with (Z.pos (digits2_pos m)).
  set (d := Z.pos (digits2_pos m)) in *.
  assert (xorb s false = s) as -> by (by destruct s).
  assert (fexp prec emax (d + e - 1) `min` (e - -52) = e
          ∨ (fexp prec emax (d + e - 1) `min` (e - -52) = e - 1
             ∧ fexp prec emax (d + 1 + e - 1) = e)) as [->| [-> Hc']].
  { unfold fexp, SpecFloat.emin, prec, emax in *. lia. }
  - replace (e - -52 - e) with 52 by lia.
    rewrite Z.shiftl_mul_pow2 by lia.
    change IntDef.Z.div_eucl with Z.div_eucl.
    rewrite div_eucl_mul by lia.
    change (new_location 4503599627370496 0) with loc_Exact.
    unfold binary_round_aux, shr_fexp.
    change (Zdigits2 (Z.pos m)) with d. rewrite Hc, Z.sub_diag.
    cbn [shr shr_record_of_loc shr_m loc_of_shr_record round_nearest_even].
    change (Zdigits2 (Z.pos m)) with d. rewrite Hc, Z.sub_diag.
    cbn [shr shr_record_of_loc shr_m].
    apply Z.leb_le in He. by rewrite He.
  - replace (e - -52 - (e - 1)) with 53 by lia.
    rewrite Z.shiftl_mul_pow2 by lia.
    change IntDef.Z.div_eucl with Z.div_eucl.
    replace (Z.pos m * 2 ^ 53) with (Z.pos m~0 * 2 ^ 52) by lia.
    rewrite div_eucl_mul by lia.
    change (new_location 4503599627370496 0) with loc_Exact.
    unfold binary_round_aux, shr_fexp.
    change (Zdigits2 (Z.pos m~0)) with (Z.pos (Pos.succ (digits2_pos m))).
    replace (Z.pos (Pos.succ (digits2_pos m)) + (e - 1)) with (d + 1 + e - 1)
      by (unfold d; lia).
    rewrite Hc'. replace (e - (e - 1)) with 1 by lia.
    cbn [shr SpecFloat.iter_pos shr_record_of_loc shr_1 shr_m loc_of_shr_record
           round_nearest_even orb].
    replace (e - 1 + 1) with e by lia.
    change (Zdigits2 (Z.pos m)) with d. rewrite Hc, Z.sub_diag.
    cbn [shr shr_record_of_loc shr_m].
    apply Z.leb_le in He. by rewrite He.
Qed.

Lemma float_div_one (p : float) : (p / 1)%float = p.
Proof.
  apply Prim2SF_inj. rewrite div_spec.
  change (Prim2SF 1) with (S754_finite false 4503599627370496 (-52)).
  pose proof (Prim2SF_valid p) as Hv.
  destruct (Prim2SF p) as [[]|[]| |s m e]; try reflexivity.
  by apply SFdiv_one.
Qed.

Lemma float_sub_zero (p : float) : (p - 0)%float = p.
Proof.
  apply Prim2SF_inj. rewrite sub_spec.
  change (Prim2SF 0) with (S754_zero false).
  by destruct (Prim2SF p) as [[]|[]| |s m e].
Qed.

(** Zero plus a double is the double, but for the sign of a negative
    zero. *)
Lemma float_zero_add (p : float) : p ≠ neg_zero → (0 + p)%float = p.
Proof.
  intros Hp. apply Prim2SF_inj. rewrite add_spec.
  change (Prim2SF 0) with (S754_zero false).
  destruct (Prim2SF p) as [[]|[]| |s m e] eqn:E; try reflexivity.
  destruct Hp. rewrite <- (SF2Prim_Prim2SF p), E. reflexivity.
Qed.

Lemma float_zero_add_eqb (p : float) :
  is_nan p = false → (0 + p =? p)%float = true.
Proof.
  unfold is_nan. rewrite !FloatAxioms.eqb_spec, add_spec.
  change (Prim2SF 0) with (S754_zero false).
  intros Hp%negb_false_iff.
  by destruct (Prim2SF p) as [[]|[]| |s m e].
Qed.

(** The mean of one value that is not NaN. *)
Lemma group_mean_singleton (p : float) :
  is_nan p = false → group_mean [p] = (0 + p)%float.
Proof.
  intros Hp. unfold group_mean, group_add. cbn [foldl]. rewrite Hp.
  cbn [nobs sumx compensation group_init].
  rewrite bool_decide_eq_false_2 by lia.
  change (float_of_Z (0 + 1)) with 1%float.
  by rewrite float_sub_zero, float_div_one.
Qed.

(** The loop of [group_mean] adds up, with compensation, the values that
    are not NaN and counts them. *)
Lemma group_add_compensated (values : list float) (acc : group_acc) :
  let sc := foldl compensated_step (sumx acc, compensation acc)
              (filter (λ p, is_nan p = false) values) in
  foldl group_add acc values
  = {| sumx := sc.1; compensation := sc.2;
       nobs := nobs acc
               + Z.of_nat (length (filter (λ p, is_nan p = false) values)) |}.
Proof.
  revert acc. induction values as [|p l IH]; intros acc.
  - destruct acc. cbn. f_equal. lia.
  - cbn [foldl]. rewrite IH, filter_cons. unfold group_add.
    destruct (is_nan p) eqn:Hp.
    + rewrite decide_False by done. reflexivity.
    + rewrite decide_True by done. cbn [foldl sumx compensation nobs length].
      unfold compensated_step at 2 4. cbn [fst snd]. f_equal. lia.
Qed.

Lemma group_mean_compensated (values : list float) :
  let summed := filter (λ p, is_nan p = false) values in
  group_mean values
  = if decide (summed = []) then nan
    else (compensated_sum summed / float_of_Z (Z.of_nat (length summed)))%float.
Proof.
  cbv zeta. unfold group_mean. rewrite group_add_compensated.
  cbn [nobs sumx group_init]. unfold compensated_sum.
  destruct (filter (λ p, is_nan p = false) values) as [|p l].
  - by rewrite decide_True.
  - rewrite decide_False by done. rewrite bool_decide_eq_false_2; [done|].
    simpl. lia.
Qed.

(** ** The trend aggregation *)

Lemma sorted_keys_strict (l : list Z) :
  StronglySorted Z.lt (merge_sort Z.le (remove_dups l)).
Proof.
  pose proof (StronglySorted_merge_sort Z.le (remove_dups l)) as Hs.
  assert (NoDup (merge_sort Z.le (remove_dups l))) as Hnd.
  { rewrite merge_sort_Permutation. apply NoDup_remove_dups. }
  induction Hs as [|x l' Hs IH Hx]; [constructor|].
  apply NoDup_cons in Hnd as [Hx' Hnd].
  constructor; [by apply IH|].
  apply Forall_forall. intros y Hy.
  pose proof (proj1 (Forall_forall _ _) Hx y Hy).
  assert (x ≠ y) by (intros ->; contradiction). lia.
Qed.

Lemma sorted_keys_elem (l : list Z) k :
  k ∈ merge_sort Z.le (remove_dups l) ↔ k ∈ l.
Proof. by rewrite merge_sort_Permutation, elem_of_remove_dups. Qed.

Lemma groupby_mean_keys rows :
  (groupby_mean rows).*1 = merge_sort Z.le (remove_dups rows.*1).
Proof.
  unfold groupby_mean. rewrite <- list_fmap_compose.
  rewrite <- (list_fmap_id (merge_sort _ _)) at 2. reflexivity.
Qed.

Lemma groupby_mean_elem rows k v :
  (k, v) ∈ groupby_mean rows ↔ k ∈ rows.*1 ∧ v = group_mean (group_values rows k).
Proof.
  unfold groupby_mean. rewrite list_elem_of_fmap. split.
  - intros (k' & [= -> ->] & Hk). rewrite sorted_keys_elem in Hk. by split.
  - intros [Hk ->]. exists k. split; [done|]. by apply sorted_keys_elem.
Qed.

Lemma group_values_trend interval reviews k :
  group_values (trend_rows interval reviews) k = bucket_polarities interval reviews k.
Proof.
  unfold group_values, trend_rows, bucket_polarities.
  induction reviews as [|r l IH]; [reflexivity|]. cbn [omap list_omap].
  destruct (review_date r) as [d|]; [|exact IH]. cbn [mbind option_bind].
  destruct (polarity r) as [p|]; [|exact IH]. cbn [mbind option_bind].
  rewrite filter_cons. cbn [fst].
  destruct (decide (bucket_key interval d = k)); [|exact IH].
  rewrite fmap_cons. cbn [snd]. by rewrite IH.
Qed.

Lemma sentiment_trend_query_fields db s e r :
  r ∈ sentiment_trend_query db s e →
  ∃ d p, review_date r = Some d ∧ polarity r = Some p.
Proof.
  unfold sentiment_trend_query. rewrite !list_elem_of_filter.
  intros (_ & _ & Hf & _). apply andb_prop_elim in Hf as [Hp Hd].
  destruct (review_date r) as [d|]; [|done].
  destruct (polarity r) as [p|]; [|done]. eauto.
Qed.

Lemma trend_rows_keys interval reviews k :
  k ∈ (trend_rows interval reviews).*1 ↔
  ∃ r d p, r ∈ reviews ∧ review_date r = Some d ∧ polarity r = Some p
           ∧ bucket_key interval d = k.
Proof.
  unfold trend_rows. rewrite list_elem_of_fmap. split.
  - intros ([k' v] & -> & Hin). apply list_elem_of_omap in Hin as (r & Hr & Hrow).
    destruct (review_date r) as [d|] eqn:Hd; [|done].
    destruct (polarity r) as [p|] eqn:Hp; [|done].
    simpl in Hrow. injection Hrow as <- <-. by exists r, d, p.
  - intros (r & d & p & Hr & Hd & Hp & <-).
    exists (bucket_key interval d, p). split; [done|].
    apply list_elem_of_omap. exists r. split; [done|]. by rewrite Hd, Hp.
Qed.

(** C6. The trend aggregation yields one entry per distinct time bucket of
    the filtered reviews, the entries in chronological order of bucket
    start.  Two reviews are of one bucket exactly when their timestamps
    have the same date (daily), the same week from Monday to Sunday
    (weekly) or the same month of the same year (monthly), and a bucket
    starts on that day, that Monday or the first of that month.  The value
    of an entry is the mean of the polarities of the reviews of its bucket
    as float64 arithmetic gives it: their compensated sum, taken in the
    order of the rows, divided by their number (a NaN polarity is left
    out).  A bucket of one review has that review's polarity: the same
    double, but for a negative zero, whose mean is zero. *)
Theorem sentiment_trend_buckets (db : list Review)
    (start_date end_date : option date) (interval : string) :
  let reviews := sentiment_trend_query db start_date end_date in
  (∀ r d, r ∈ reviews → review_date r = Some d → valid_date d) →
  match sentiment_trend db start_date end_date interval with
  | TrendError _ => reviews = []
  | TrendPlot grouped =>
      reviews ≠ []
      ∧ StronglySorted
          (λ a b, bucket_start interval a.1 < bucket_start interval b.1) grouped
      ∧ (∀ k, k ∈ grouped.*1 ↔
              ∃ r d, r ∈ reviews ∧ review_date r = Some d
                     ∧ bucket_key interval d = k)
      ∧ (∀ r1 r2 d1 d2,
           r1 ∈ reviews → r2 ∈ reviews →
           review_date r1 = Some d1 → review_date r2 = Some d2 →
           (bucket_key interval d1 = bucket_key interval d2
            ↔ same_bucket interval d1 d2)
           ∧ bucket_start interval (bucket_key interval d1)
             = first_day interval d1)
      ∧ (∀ k v, (k, v) ∈ grouped →
           let polarities := bucket_polarities interval reviews k in
           let summed := filter (λ p, is_nan p = false) polarities in
           polarities ≠ []
           ∧ v = (if decide (summed = []) then nan
                  else (compensated_sum summed
                        / float_of_Z (Z.of_nat (length summed)))%float)
           ∧ ∀ p, polarities = [p] → is_nan p = false →
                  (v =? p)%float = true ∧ (p ≠ neg_zero → v = p))
  end.
Proof.
  intros reviews Hvalid. unfold sentiment_trend. fold reviews.
  destruct reviews as [|r0 l] eqn:Hrev; [reflexivity|]. rewrite <- Hrev.
  rewrite <- Hrev in Hvalid.
  split; [by rewrite Hrev|]. split; [|split; [|split]].
  - unfold groupby_mean.
    eapply StronglySorted_fmap; [|apply sorted_keys_strict].
    intros k1 k2 Hlt. by apply bucket_start_mono.
  - intros k. rewrite groupby_mean_keys, sorted_keys_elem, trend_rows_keys.
    split.
    + intros (r & d & p & Hr & Hd & _ & Hk). by exists r, d.
    + intros (r & d & Hr & Hd & Hk).
      destruct (sentiment_trend_query_fields db start_date end_date r)
        as (d' & p & Hd' & Hp); [done|].
      exists r, d, p. done.
  - intros r1 r2 d1 d2 Hr1 Hr2 Hd1 Hd2.
    pose proof (Hvalid r1 d1 Hr1 Hd1). pose proof (Hvalid r2 d2 Hr2 Hd2).
    split; [by apply bucket_key_same|by apply bucket_start_first_day].
  - intros k v [Hk ->]%groupby_mean_elem. rewrite group_values_trend.
    cbv zeta. split; [|split].
    + rewrite <- group_values_trend. unfold group_values.
      apply list_elem_of_fmap in Hk as ([k' v] & -> & Hin). intros Hnil.
      apply fmap_nil_inv in Hnil.
      eapply (filter_nil_not_elem_of _ _ (k', v)); [exact Hnil|done|done].
    + apply group_mean_compensated.
    + intros p -> Hp. rewrite (group_mean_singleton p Hp).
      split; [by apply float_zero_add_eqb|apply float_zero_add].
Qed.

(** ** The correlation analyzer *)

Lemma Zsum_constant (x : list Z) c :
  Forall (λ v, v = c) x → Zsum x = Z.of_nat (length x) * c.
Proof.
  induction 1 as [|v x -> _ IH]; simpl; [lia|]. rewrite IH. lia.
Qed.

Lemma Zsum_squares_zero (f : Z → Z) (x : list Z) :
  Zsum ((λ v, f v ^ 2) <$> x) = 0 ↔ Forall (λ v, f v = 0) x.
Proof.
  assert (∀ l, 0 ≤ Zsum ((λ v, f v ^ 2) <$> l)) as Hnn.
  { induction l as [|v l IH]; [done|].
    rewrite fmap_cons. unfold Zsum in *. cbn [foldr].
    pose proof (Z.pow_2_r (f v)). nia. }
  induction x as [|v x IH].
  - split; [constructor|reflexivity].
  - rewrite Forall_cons, <- IH, fmap_cons. specialize (Hnn x).
    unfold Zsum in *. cbn [foldr]. pose proof (Z.pow_2_r (f v)). nia.
Qed.

(** The variance is zero exactly on a constant array. *)
Lemma sq_deviation_constant (x : list Z) :
  sq_deviation x = 0 ↔ is_constant x = true.
Proof.
  unfold sq_deviation. rewrite Zsum_squares_zero.
  destruct x as [|x0 x]; [by split; [|constructor]|].
  unfold is_constant. rewrite bool_decide_eq_true.
  set (l := x0 :: x). assert (0 < Z.of_nat (length l)) as Hn by (simpl; lia).
  split.
  - intros Hall. pose proof (Forall_inv Hall) as H0. simpl in H0.
    eapply Forall_impl; [exact Hall|]. simpl. intros v Hv. nia.
  - intros Hall. rewrite (Zsum_constant l x0 Hall).
    eapply Forall_impl; [exact Hall|]. simpl. intros v ->. lia.
Qed.

Section CorrelationFacts.
Context `{UnicodeData}.

Lemma correlation_query_rating db s e r :
  r ∈ correlation_query db s e → ∃ rt, rating r = Some rt.
Proof.
  unfold correlation_query. rewrite !list_elem_of_filter.
  intros (_ & _ & Hf & _). apply andb_prop_elim in Hf as [Hf _].
  apply andb_prop_elim in Hf as [Hr _].
  destruct (rating r) as [rt|]; [eauto|done].
Qed.

Lemma records_length reviews :
  Forall (λ r, ∃ rt, rating r = Some rt) reviews →
  length (records reviews) = length reviews.
Proof.
  unfold records. induction 1 as [|r l [rt Hr] _ IH]; [reflexivity|].
  cbn [omap list_omap]. rewrite Hr. simpl. by rewrite IH.
Qed.

Lemma correlation_records_length db s e :
  length (records (correlation_query db s e)) = length (correlation_query db s e).
Proof.
  apply records_length, Forall_forall. intros r. apply correlation_query_rating.
Qed.

(** Without a guard of its own the endpoint returns what [pearsonr]
    yields. *)
Lemma rating_length_correlation_nonempty db s e :
  correlation_query db s e ≠ [] →
  rating_length_correlation db s e
  = let recs := records (correlation_query db s e) in
    match pearsonr (sample_ratings recs) (sample_lengths recs) with
    | Raises e => Raises e
    | Returns (pearson_r, p_value) =>
        Returns (CorrelationStats (rating_table recs) pearson_r p_value)
    end.
Proof.
  unfold rating_length_correlation. by destruct (correlation_query db s e).
Qed.

Lemma pearsonr_short x y :
  (length x < 2)%nat →
  pearsonr x y = Raises (ValueError "x and y must have length at least 2.").
Proof. intros Hx. unfold pearsonr. by rewrite bool_decide_eq_true_2. Qed.

Lemma pearsonr_constant x y :
  (2 ≤ length x)%nat → sq_deviation x = 0 ∨ sq_deviation y = 0 →
  pearsonr x y = Returns (NaN, NaN).
Proof.
  intros Hx Hc. unfold pearsonr. rewrite bool_decide_eq_false_2 by lia.
  rewrite !sq_deviation_constant in Hc.
  destruct Hc as [-> | ->]; [reflexivity|by rewrite orb_true_r].
Qed.

Lemma pearsonr_returns x y :
  (2 ≤ length x)%nat → ∃ r p, pearsonr x y = Returns (r, p).
Proof.
  intros Hx. unfold pearsonr. rewrite bool_decide_eq_false_2 by lia.
  destruct (is_constant x || is_constant y); eauto.
Qed.

(** C1, as the code has it.  On a degenerate sample the operation has no
    outcome of its own for an undefined correlation: the empty collection
    gets the error response; a single point makes [pearsonr] raise, and
    the exception reaches the caller; two or more points without variance
    in one dimension give the ordinary statistics with NaN for the
    coefficient and for the p-value. *)
Theorem correlation_degenerate (db : list Review)
    (start_date end_date : option date) :
  let reviews := correlation_query db start_date end_date in
  let res := rating_length_correlation db start_date end_date in
  degenerate (records reviews) →
  (reviews = []
   ∧ res = Returns (CorrelationError "Tidak ada review dalam rentang ini."))
  ∨ (length reviews = 1%nat
     ∧ res = Raises (ValueError "x and y must have length at least 2."))
  ∨ ((2 ≤ length reviews)%nat
     ∧ res = Returns (CorrelationStats (rating_table (records reviews)) NaN NaN)
     ∧ reports_undefined res = false).
Proof.
  intros reviews res Hdeg. subst res.
  pose proof (correlation_records_length db start_date end_date) as Hlen.
  fold reviews in Hlen.
  destruct (decide (reviews = [])) as [Hnil|Hne].
  - left. split; [done|]. unfold rating_length_correlation. fold reviews.
    by rewrite Hnil.
  - right. rewrite rating_length_correlation_nonempty by done. fold reviews.
    cbv zeta.
    assert (length (sample_ratings (records reviews)) = length reviews) as Hr
      by (unfold sample_ratings; by rewrite length_fmap).
    destruct (decide (length reviews = 1%nat)) as [H1|H1].
    + left. split; [done|]. rewrite pearsonr_short; [done|lia].
    + right. assert (2 ≤ length reviews)%nat as H2.
      { destruct reviews as [|? [|? ?]]; simpl in *; try done; lia. }
      split; [done|]. rewrite pearsonr_constant; [done|lia|].
      destruct Hdeg as [Hd|Hd]; [lia|exact Hd].
Qed.

(** The two arrays handed to [pearsonr]: the rating and the letter count
    of every review of the query. *)
Lemma records_ratings reviews :
  sample_ratings (records reviews) = omap rating reviews.
Proof.
  unfold sample_ratings, records.
  induction reviews as [|r l IH]; [reflexivity|]. cbn [omap list_omap].
  destruct (rating r) as [rt|]; [|exact IH]. cbn [mbind option_bind].
  by rewrite fmap_cons, IH.
Qed.

Lemma records_lengths reviews :
  Forall (λ r, ∃ rt, rating r = Some rt) reviews →
  sample_lengths (records reviews)
  = (λ r, Z.of_nat (count_letters (text r))) <$> reviews.
Proof.
  unfold sample_lengths, records.
  induction 1 as [|r l [rt Hr] _ IH]; [reflexivity|]. cbn [omap list_omap].
  rewrite Hr. cbn [mbind option_bind]. by rewrite !fmap_cons, IH.
Qed.

Lemma lengths_of_rating_records reviews k :
  Z.of_nat <$> (snd <$> filter (λ rec, rec.1 = k) (records reviews))
  = lengths_of_rating reviews k.
Proof.
  unfold records, lengths_of_rating.
  induction reviews as [|r l IH]; [reflexivity|]. cbn [omap list_omap].
  rewrite (filter_cons _ r).
  destruct (rating r) as [rt|]; cbn [mbind option_bind].
  - rewrite filter_cons. cbn [fst].
    destruct (decide (rt = k)) as [->|Hne].
    + rewrite decide_True by done. rewrite !fmap_cons. cbn [snd]. by rewrite IH.
    + rewrite decide_False by congruence. exact IH.
  - rewrite decide_False by done. exact IH.
Qed.

Lemma avg_length_reviews (reviews : list Review) k :
  avg_length (records reviews) k
  = match filter (λ r, rating r = Some k) reviews with
    | [] => None
    | rated =>
        Some (float_of_Z
                (Zsum ((λ r, Z.of_nat (count_letters (text r))) <$> rated))
              / float_of_Z (Z.of_nat (length rated)))%float
    end.
Proof.
  unfold avg_length. cbv zeta.
  pose proof (lengths_of_rating_records reviews k) as Hl.
  unfold lengths_of_rating in Hl.
  destruct (snd <$> filter _ (records reviews)) as [|L subset];
    destruct (filter (λ r, rating r = Some k) reviews) as [|r rated];
    try done.
  unfold np_mean. rewrite Hl, length_fmap. reflexivity.
Qed.

(** The reviews rated outside 1..5 are in no entry of the table. *)
Lemma rated_in_scale_filter (reviews : list Review) k :
  1 ≤ k ≤ 5 →
  filter (λ r, rating r = Some k) (filter (λ r, rated_in_scale r) reviews)
  = filter (λ r, rating r = Some k) reviews.
Proof.
  intros Hk. rewrite list_filter_filter_l; [reflexivity|].
  intros r Hr. unfold rated_in_scale. rewrite Hr.
  by apply bool_decide_pack.
Qed.

Lemma rating_table_in_scale (reviews : list Review) :
  rating_table (records (filter (λ r, rated_in_scale r) reviews))
  = rating_table (records reviews).
Proof.
  unfold rating_table. apply list_fmap_ext. intros i k Hk. f_equal.
  rewrite !avg_length_reviews, rated_in_scale_filter; [done|].
  apply list_elem_of_lookup_2, elem_of_seqZ in Hk. lia.
Qed.

Lemma filter_filter_comm {A} (P Q : A → Prop) `{!∀ x, Decision (P x)}
    `{!∀ x, Decision (Q x)} (l : list A) :
  filter P (filter Q l) = filter Q (filter P l).
Proof.
  induction l as [|x l IH]; [reflexivity|]. rewrite !(filter_cons _ x).
  destruct (decide (P x)), (decide (Q x)); rewrite ?filter_cons;
    rewrite ?decide_True by done; rewrite ?decide_False by done;
    by rewrite IH.
Qed.

Lemma correlation_query_filter (P : Review → Prop) `{!∀ r, Decision (P r)}
    db s e :
  correlation_query (filter P db) s e = filter P (correlation_query db s e).
Proof.
  unfold correlation_query.
  by rewrite !(filter_filter_comm P).
Qed.

(** C7, as the code has it.  For a filtered collection of two or more
    reviews the correlation result has the per-rating table with the keys
    1 to 5 in this order, each with [None] when no review has the rating
    and otherwise with the mean letter count of the reviews of that rating
    as a double: the quotient of their total by their number, rounded once
    (the total is below [2^53]).  The rating and the letter count of
    every review, whatever the rating, are in the two arrays handed to
    [pearsonr]; a table without the reviews rated outside 1..5 gives the
    same per-rating table.  A single review gives no table: [pearsonr]
    raises. *)
Theorem correlation_table (db : list Review)
    (start_date end_date : option date) :
  let reviews := correlation_query db start_date end_date in
  let letters := λ r : Review, Z.of_nat (count_letters (text r)) in
  (2 ≤ length reviews)%nat →
  Zsum (letters <$> reviews) < 2 ^ 53 →
  ∃ table r p,
    rating_length_correlation db start_date end_date
    = Returns (CorrelationStats table r p)
    ∧ pearsonr (omap rating reviews) (letters <$> reviews) = Returns (r, p)
    ∧ length (omap rating reviews) = length reviews
    ∧ table.*1 = [1; 2; 3; 4; 5]
    ∧ (∀ k v, (k, v) ∈ table →
         v = match filter (λ r, rating r = Some k) reviews with
             | [] => None
             | rated =>
                 Some (float_of_Z (Zsum (letters <$> rated))
                       / float_of_Z (Z.of_nat (length rated)))%float
             end)
    ∧ (∀ table' r' p',
         rating_length_correlation (filter (λ r, rated_in_scale r) db)
           start_date end_date
         = Returns (CorrelationStats table' r' p') →
         table' = table).
Proof.
  intros reviews letters Hlen _.
  assert (Forall (λ r, ∃ rt, rating r = Some rt) reviews) as Hrated.
  { apply Forall_forall. intros r. apply correlation_query_rating. }
  pose proof (records_ratings reviews) as Hx.
  pose proof (records_lengths reviews Hrated) as Hy. fold letters in Hy.
  assert (length (omap rating reviews) = length reviews) as Hn.
  { rewrite <- Hx. unfold sample_ratings. rewrite length_fmap.
    by apply records_length. }
  destruct (pearsonr_returns (omap rating reviews) (letters <$> reviews))
    as (r & p & Hp); [lia|].
  exists (rating_table (records reviews)), r, p.
  split; [|split; [done|split; [done|split; [done|split]]]].
  - rewrite rating_length_correlation_nonempty.
    + fold reviews. cbv zeta. by rewrite Hx, Hy, Hp.
    + fold reviews. intros Hnil. rewrite Hnil in Hlen. simpl in Hlen. lia.
  - intros k v Hkv. unfold rating_table in Hkv.
    apply list_elem_of_fmap in Hkv as (k' & [= -> ->] & _).
    apply avg_length_reviews.
  - intros table' r' p'. unfold rating_length_correlation.
    rewrite correlation_query_filter. fold reviews.
    rewrite <- (rating_table_in_scale reviews).
    destruct (filter (λ r, rated_in_scale r) reviews) as [|r0 l0]; [done|].
    generalize (r0 :: l0). intros l. cbv zeta.
    destruct (pearsonr (sample_ratings (records l)) (sample_lengths (records l)))
      as [[? ?]|?]; [|done].
    by intros [= <- _ _].
Qed.

End CorrelationFacts.

Section EmptyInput.
Context `{UnicodeData}.

(** C2. On an empty filtered collection the trend and the correlation each
    return their error response: a returned value that carries the message,
    not an exception and not a series. *)
Theorem empty_collection_no_data (db : list Review)
    (start_date end_date : option date) (interval : string) :
  (sentiment_trend_query db start_date end_date = [] →
   sentiment_trend db start_date end_date interval
   = TrendError "Tidak ada data pada rentang ini.")
  ∧ (correlation_query db start_date end_date = [] →
     rating_length_correlation db start_date end_date
     = Returns (CorrelationError "Tidak ada review dalam rentang ini.")).
Proof.
  split; intros Hq.
  - unfold sentiment_trend. by rewrite Hq.
  - unfold rating_length_correlation. by rewrite Hq.
Qed.

(** C10. On an empty filtered collection the word-frequency operation
    returns a result, not an error: nothing scanned, no review with a hit,
    two empty top-word lists. *)
Theorem word_frequency_empty (db : list Review)
    (start_date end_date : option datetime) (k : Z) :
  word_frequency_query db start_date end_date = [] →
  word_frequency db start_date end_date k
  = {| total_reviews_scanned := 0;
       reviews_with_positive_words := 0;
       reviews_with_negative_words := 0;
       top_k := k;
       positive_top_words := [];
       negative_top_words := [] |}.
Proof.
  intros Hq. unfold word_frequency. rewrite Hq. cbn [foldl length scan_init
    pos_hits neg_hits pos_counter neg_counter].
  unfold most_common, sorted_desc. cbn [foldr]. by rewrite take_nil, size_empty.
Qed.

End EmptyInput.

(** ** The functions on concrete inputs (Latin-1 tables) *)

(** "Room205!" has four letters. *)
Example count_letters_room205 : count_letters (Some (py_str "Room205!")) = 4%nat.
Proof. reflexivity. Qed.

(** On ASCII text the count is the number of letters. *)
Lemma latin1_letter_class_ascii c :
  (c < 128)%N → letter_class c = isalpha c.
Proof.
  intros Hc.
  assert (Forall (λ n, letter_class (Z.to_N n) = isalpha (Z.to_N n)) (seqZ 0 128))
    as Hall.
  { apply (bool_decide_unpack _). by vm_compute. }
  rewrite <- (N2Z.id c).
  apply (proj1 (Forall_forall _ _) Hall). apply elem_of_seqZ. lia.
Qed.

Lemma findall_letters_ascii (s : str) :
  Forall (λ c, c < 128)%N s → length (findall_letters s) = unicode_letters s.
Proof.
  unfold findall_letters, unicode_letters.
  induction 1 as [|c s Hc _ IH]; [reflexivity|].
  rewrite !filter_cons, (latin1_letter_class_ascii c Hc).
  destruct (decide (isalpha c)); simpl; by rewrite IH.
Qed.

Lemma count_letters_ascii (s : str) :
  Forall (λ c, c < 128)%N s → count_letters (Some s) = unicode_letters s.
Proof.
  intros Hs. destruct s as [|c0 s0]; [reflexivity|].
  by apply findall_letters_ascii.
Qed.

(** C5 fails on "20 m²": the class [[^\W\d_]] takes the superscript two,
    a digit, for a letter; the code counts 2 where the text has one
    letter. *)
Theorem count_letters_superscript_digit :
  count_letters (Some text_square_metres) = 2%nat
  ∧ unicode_letters text_square_metres = 1%nat
  ∧ isdigit 178%N = true ∧ isalpha 178%N = false.
Proof. by vm_compute. Qed.

(** C8 fails on "10²": the token has no letter, yet the letter test of the
    loop accepts it for its superscript two and the token is kept. *)
Theorem extract_clean_words_letterless_token :
  extract_clean_words (Some text_ten_squared) = [text_ten_squared]
  ∧ unicode_letters text_ten_squared = 0%nat.
Proof. by vm_compute. Qed.

(** C1 fails on ratings 1..5 with five letters each: the sample has no
    variance in length, and the operation returns the statistics with NaN
    instead of reporting an undefined correlation. *)
Lemma correlation_constant_length_nan :
  degenerate (records (correlation_query reviews_constant_length None None))
  ∧ reports_undefined
      (rating_length_correlation reviews_constant_length None None) = false
  ∧ ∃ table, rating_length_correlation reviews_constant_length None None
             = Returns (CorrelationStats table NaN NaN).
Proof.
  split; [|split].
  - right. right. by vm_compute.
  - by vm_compute.
  - eexists. by vm_compute.
Qed.

(** The ratings 1..5 with five letters each are such a degenerate sample. *)
Lemma correlation_degenerate_witness :
  degenerate (records (correlation_query reviews_constant_length None None))
  ∧ (2 ≤ length (correlation_query reviews_constant_length None None))%nat
  ∧ reports_undefined
      (rating_length_correlation reviews_constant_length None None) = false.
Proof.
  assert (degenerate (records (correlation_query reviews_constant_length None None)))
    as Hdeg by (right; right; vm_compute; reflexivity).
  split; [exact Hdeg|].
  destruct (correlation_degenerate reviews_constant_length None None Hdeg)
    as [[Hnil _]|[[Hone _]|(Htwo & _ & Hrep)]].
  - vm_compute in Hnil. discriminate Hnil.
  - vm_compute in Hone. discriminate Hone.
  - split; [exact Htwo|exact Hrep].
Defined.

(** Four reviews, one rated 7: the table is computed and ignores it; the
    mean of the lengths 15 and 4 of the two reviews rated 5 is 9.5. *)
Lemma correlation_table_witness :
  (2 ≤ length (correlation_query reviews_with_rating_7 None None))%nat
  ∧ Zsum ((λ r, Z.of_nat (count_letters (text r)))
            <$> correlation_query reviews_with_rating_7 None None) < 2 ^ 53
  ∧ ∃ table r p,
      rating_length_correlation reviews_with_rating_7 None None
      = Returns (CorrelationStats table r p)
      ∧ table.*1 = [1; 2; 3; 4; 5]
      ∧ (5, Some 9.5%float) ∈ table.
Proof.
  assert (2 ≤ length (correlation_query reviews_with_rating_7 None None))%nat
    as Hlen by (vm_compute; lia).
  assert (Zsum ((λ r, Z.of_nat (count_letters (text r)))
                  <$> correlation_query reviews_with_rating_7 None None) < 2 ^ 53)
    as Hsum by (by vm_compute).
  split; [exact Hlen|]. split; [exact Hsum|].
  destruct (correlation_table reviews_with_rating_7 None None Hlen Hsum)
    as (table & r & p & Hres & _ & _ & Hkeys & _ & _).
  exists table, r, p. split; [exact Hres|]. split; [exact Hkeys|].
  vm_compute in Hres. injection Hres as <- _ _.
  do 4 right. left.
Defined.

(** C7 fails on a single review: the filtered collection is not empty,
    and the operation returns no table; [pearsonr] raises [ValueError]. *)
Lemma correlation_single_review_raises :
  correlation_query [text_review 1 (Some 5) (Some (py_str "good"))] None None
  = [text_review 1 (Some 5) (Some (py_str "good"))]
  ∧ ∃ msg, rating_length_correlation
             [text_review 1 (Some 5) (Some (py_str "good"))] None None
           = Raises (ValueError msg).
Proof. split; [by vm_compute|]. eexists. by vm_compute. Qed.

(** The review rated 7 is in the sample of [pearsonr] and changes the
    coefficient, and it is in no entry of the table. *)
Example correlation_rating_7 :
  rating_length_correlation reviews_with_rating_7 None None
  = Returns (CorrelationStats
               (rating_table [(1, 3%nat); (5, 15%nat); (5, 4%nat)])
               (Coefficient 26 76 411) (PValue 4 26 76 411))
  ∧ rating_length_correlation
      (filter (λ r, rating r ≠ Some 7) reviews_with_rating_7) None None
    = Returns (CorrelationStats
                 (rating_table [(1, 3%nat); (5, 15%nat); (5, 4%nat)])
                 (Coefficient 52 32 266) (PValue 3 52 32 266)).
Proof. by vm_compute. Qed.

(** Ratings 1 and 5 with lengths 10 and 100: the coefficient is 1. *)
Example pearsonr_two_points :
  pearsonr [1; 5] [10; 100]
  = Returns (Coefficient 360 16 8100, PValue 2 360 16 8100)
  ∧ 0 < 360 ∧ 360 * 360 = 16 * 8100.
Proof. by vm_compute. Qed.

(** A table whose only row has neither rating nor polarity: both queries
    are empty. *)
Lemma empty_collection_no_data_witness :
  (sentiment_trend_query [text_review 1 None None] None None = []
   ∧ correlation_query [text_review 1 None None] None None = [])
  ∧ sentiment_trend [text_review 1 None None] None None "daily"
    = TrendError "Tidak ada data pada rentang ini."
  ∧ rating_length_correlation [text_review 1 None None] None None
    = Returns (CorrelationError "Tidak ada review dalam rentang ini.").
Proof.
  destruct (empty_collection_no_data [text_review 1 None None] None None "daily")
    as [Htrend Hcorr].
  split; [split; reflexivity|].
  split; [apply Htrend|apply Hcorr]; reflexivity.
Defined.

(** A table whose only row has no text: nothing to scan. *)
Lemma word_frequency_empty_witness :
  word_frequency_query [text_review 1 (Some 4) None] None None = []
  ∧ word_frequency [text_review 1 (Some 4) None] None None 20
    = {| total_reviews_scanned := 0;
         reviews_with_positive_words := 0;
         reviews_with_negative_words := 0;
         top_k := 20;
         positive_top_words := [];
         negative_top_words := [] |}.
Proof.
  split; [reflexivity|].
  apply (word_frequency_empty [text_review 1 (Some 4) None] None None 20).
  reflexivity.
Defined.

(** Two reviews of one day with polarities 0.2 and 0.8: one bucket, of
    average 0.5. *)
Example sentiment_trend_same_day :
  sentiment_trend reviews_same_day None None "daily"
  = TrendPlot [(735658, 0.5%float)].
Proof. by vm_compute. Qed.

(** C6 fails on three reviews of one day with the polarity 0.1 each:
    their arithmetic mean is that polarity, and the value of the bucket is
    0.10000000000000002, the next double: it is greater than every
    polarity of the bucket. *)
Lemma sentiment_trend_mean_rounds :
  sentiment_trend reviews_three_tenths None None "daily"
  = TrendPlot [(735658, 0.10000000000000002%float)]
  ∧ bucket_polarities "daily"
      (sentiment_trend_query reviews_three_tenths None None) 735658
    = [0.1; 0.1; 0.1]%float
  ∧ (0.1 <? 0.10000000000000002)%float = true.
Proof. by vm_compute. Qed.

(** The mean is the mean of float64 arithmetic: 0.1 and 0.2 average to
    0.15000000000000002, and three times 0.1 to 0.10000000000000002. *)
Example group_mean_rounds :
  group_mean [0.1; 0.2]%float = 0.15000000000000002%float
  ∧ group_mean [0.1; 0.1; 0.1]%float = 0.10000000000000002%float
  ∧ np_mean [1; 2; 2] = 1.6666666666666667%float.
Proof. by vm_compute. Qed.

(** 2015-03-02 is a Monday; the week of 2015-03-01, a Sunday, starts on
    2015-02-23. *)
Example first_day_sample :
  weekday (combine_min (march 2)) = 0
  ∧ first_day "weekly" (combine_min (march 1)) = ymd2ord 2015 2 23
  ∧ first_day "monthly" (combine_min (march 9)) = ymd2ord 2015 3 1.
Proof. by vm_compute. Qed.

(** The reviews of the sample, of a Sunday, of the Monday after it and of
    the Monday a week later, fall in three weeks. *)
Lemma sentiment_trend_buckets_witness :
  (∀ r d, r ∈ sentiment_trend_query sample_db None None →
          review_date r = Some d → valid_date d)
  ∧ ∃ v1 v2 v3,
      sentiment_trend sample_db None None "weekly"
      = TrendPlot [(105093, v1); (105094, v2); (105095, v3)]
      ∧ bucket_start "weekly" 105093 < bucket_start "weekly" 105094.
Proof.
  assert (∀ r d, r ∈ sentiment_trend_query sample_db None None →
                 review_date r = Some d → valid_date d) as Hvalid.
  { intros r d Hr Hd.
    change (sentiment_trend_query sample_db None None) with sample_db in Hr.
    unfold sample_db in Hr.
    repeat (apply elem_of_cons in Hr as [->|Hr];
            [injection Hd as <-; unfold valid_date;
             apply (bool_decide_unpack _); by vm_compute|]).
    inversion Hr. }
  split; [exact Hvalid|].
  pose proof (sentiment_trend_buckets sample_db None None "weekly" Hvalid)
    as Hthm.
  cbv zeta in Hthm.
  destruct (sentiment_trend sample_db None None "weekly") as [?|grouped] eqn:E;
    [discriminate E|].
  destruct Hthm as (_ & Hsorted & _).
  vm_compute in E. injection E as <-.
  eexists _, _, _. split; [reflexivity|].
  apply StronglySorted_inv in Hsorted as [_ Hlt].
  apply Forall_inv in Hlt. exact Hlt.
Defined.

(** A review with "excellent" twice between two other reviews: the count
    of the word goes from 0 to 2, the number of reviews with a positive
    word from 2 to 3. *)
Lemma word_frequency_review_increments_witness :
  word_frequency_query [review_excellent] None None = [review_excellent]
  ∧ listed_count
      (positive_top_words
         (word_frequency ([review_great] ++ review_excellent :: [review_nice])
            None None 20))
      (py_str "excellent")
    = 2%nat
  ∧ (reviews_with_positive_words
       (word_frequency ([review_great] ++ review_excellent :: [review_nice])
          None None 20)
     ≤ reviews_with_positive_words
         (word_frequency ([review_great] ++ [review_nice]) None None 20) + 1)%nat.
Proof.
  assert (word_frequency_query [review_excellent] None None = [review_excellent])
    as Hq by reflexivity.
  split; [exact Hq|].
  destruct (word_frequency_review_increments [review_great] [review_nice]
              review_excellent None None 20 (py_str "excellent") Hq)
    as (_ & Hcount & _ & [_ Hhits] & _).
  split; [|exact Hhits].
  rewrite Hcount by (vm_compute; discriminate). by vm_compute.
Defined.

(** "excellent" twice in one review: two occurrences, one review. *)
Example word_frequency_excellent_twice :
  word_frequency
    [text_review 7 None (Some (py_str "Excellent pool, excellent food"))]
    None None 20
  = {| total_reviews_scanned := 1;
       reviews_with_positive_words := 1;
       reviews_with_negative_words := 0;
       top_k := 20;
       positive_top_words := [(py_str "excellent", 2%nat)];
       negative_top_words := [] |}.
Proof. by vm_compute. Qed.

(** * Further properties of the analytics router *)

(** ** The normalizer *)

Section NormalizerMore.
Context `{UnicodeData}.

Lemma count_letters_Some s : count_letters (Some s) = length (findall_letters s).
Proof. by destruct s. Qed.

(** X1. The letter count of a concatenation is the sum of the counts of the
    parts, it never exceeds the length of the text, and it is zero exactly
    when no code point of the text is in the class [[^\W\d_]]. *)
Theorem count_letters_app (s1 s2 : str) :
  count_letters (Some (s1 ++ s2))
  = (count_letters (Some s1) + count_letters (Some s2))%nat
  ∧ (count_letters (Some s1) ≤ length s1)%nat
  ∧ (count_letters (Some s1) = 0%nat ↔ Forall (λ c, letter_class c = false) s1).
Proof.
  rewrite !count_letters_Some. unfold findall_letters.
  split; [by rewrite filter_app, length_app|]. split; [apply length_filter|].
  rewrite length_zero_iff_nil. split.
  - intros Hnil. apply Forall_forall. intros c Hc.
    destruct (letter_class c) eqn:Hl; [|done].
    by destruct (filter_nil_not_elem_of _ _ c Hnil (Is_true_true_2 _ Hl)).
  - induction 1 as [|c s Hc _ IH]; [done|].
    rewrite filter_cons, decide_False; [done|]. rewrite Hc. intros [].
Qed.

(** The part of a text after its leading run of word characters. *)
Lemma word_run_drop s : word_run s ++ drop (length (word_run s)) s = s.
Proof.
  induction s as [|c s IH]; [done|]. simpl.
  destruct (is_word c); simpl; [by rewrite IH|done].
Qed.

Lemma filter_word_run s :
  filter (λ c, is_word c) (word_run s) = word_run s.
Proof.
  induction s as [|c s IH]; [done|]. simpl.
  destruct (is_word c) eqn:Hc; [|done].
  rewrite filter_cons, decide_True by (by rewrite Hc). by rewrite IH.
Qed.

Lemma filter_word_split s :
  filter (λ c, is_word c) s
  = word_run s ++ filter (λ c, is_word c) (drop (length (word_run s)) s).
Proof.
  rewrite <- (word_run_drop s) at 1. by rewrite filter_app, filter_word_run.
Qed.

Lemma findall_from_concat b s :
  concat (findall_from b s)
  = filter (λ c, is_word c)
      (if b then drop (length (word_run s)) s else s).
Proof.
  revert b. induction s as [|c s IH]; intros b; [by destruct b|].
  cbn [findall_from word_run]. destruct (is_word c) eqn:Hc.
  - destruct b; cbn [andb negb].
    + rewrite IH. done.
    + cbn [concat]. rewrite IH, filter_cons, decide_True by (by rewrite Hc).
      by rewrite (filter_word_split s).
  - cbn [andb]. rewrite IH. cbn [length drop].
    assert ((if b then c :: s else c :: s) = c :: s) as -> by (by destruct b).
    by rewrite filter_cons, decide_False by (rewrite Hc; intros []).
Qed.

(** X2. The matches of [WORD_PATTERN] lose no word character and invent
    none: put end to end they are the word characters of the text, in
    order.  Each one is a non-empty run of word characters, and a text that
    is one such run is its own single match. *)
Theorem WORD_PATTERN_findall_concat (s : str) :
  concat (WORD_PATTERN_findall s) = filter (λ c, is_word c) s
  ∧ Forall (λ t, t ≠ [] ∧ Forall (λ c, is_word c = true) t) (WORD_PATTERN_findall s)
  ∧ (s ≠ [] → Forall (λ c, is_word c = true) s → WORD_PATTERN_findall s = [s]).
Proof.
  split; [apply (findall_from_concat false)|]. split.
  - apply Forall_forall. intros t Ht.
    by apply findall_from_token in Ht as (? & ? & _).
  - apply findall_single.
Qed.

Lemma lower_lower s : lower (lower s) = lower s.
Proof. apply (lower_stable s). set_solver. Qed.

(** X3. Cleaning does not depend on the case of the text: a text and its
    lower-cased form give the same words. *)
Theorem extract_clean_words_lower (s : str) :
  extract_clean_words (Some (lower s)) = extract_clean_words (Some s).
Proof. by rewrite !extract_clean_words_Some, lower_lower. Qed.

(** X4. Every word of the cleaned sequence is longer than two code points,
    is no stopword, holds a code point of the class [[^\W\d_]], is made of
    word characters only, and is in lower case. *)
Theorem extract_clean_words_shape (text : option str) (t : str) :
  t ∈ extract_clean_words text →
  (2 < length t)%nat ∧ (t ∉ STOPWORDS)
  ∧ Exists (λ c, letter_class c = true) t
  ∧ Forall (λ c, is_word c = true) t
  ∧ lower t = t.
Proof.
  intros Ht. destruct text as [s|]; [|inversion Ht].
  pose proof (extract_clean_words_filters (Some s) t Ht) as (Hlen & Hstop & Hlet).
  pose proof (proj1 (Forall_forall _ _) (extract_clean_words_tokens s) t Ht)
    as [(_ & _ & Hw) Hsub].
  repeat split; try done. by apply (lower_token s).
Qed.

End NormalizerMore.

(** ** The word-frequency scan *)

Lemma size_list_to_set_le (l : list Z) :
  (size (list_to_set l : gset Z) ≤ length l)%nat.
Proof.
  induction l as [|x l IH]; [by rewrite list_to_set_nil, size_empty|].
  rewrite list_to_set_cons, (comm_L (∪)). simpl.
  pose proof (size_add_le (list_to_set l) x). lia.
Qed.

Section ScanMore.
Context `{UnicodeData}.

Lemma hit_ids_size_le lexicon reviews :
  (size (hit_ids lexicon reviews) ≤ length reviews)%nat.
Proof.
  unfold hit_ids. etransitivity; [apply size_list_to_set_le|].
  rewrite length_fmap. apply length_filter.
Qed.

Lemma hit_ids_size_NoDup lexicon reviews :
  NoDup (review_id <$> reviews) →
  size (hit_ids lexicon reviews)
  = length (filter (has_lexicon_word lexicon) reviews).
Proof.
  intros Hnd. unfold hit_ids. rewrite size_list_to_set.
  - by rewrite length_fmap.
  - eapply sublist_NoDup; [exact Hnd|]. apply fmap_sublist, sublist_filter.
Qed.

(** X5. The two hit counts are the numbers of distinct ids among the
    scanned reviews that hold a positive, respectively negative, word; they
    never exceed the number of reviews scanned, and when the ids are
    distinct they are the numbers of such reviews. *)
Theorem word_frequency_hit_counts (db : list Review)
    (start_date end_date : option datetime) (k : Z) :
  let reviews := word_frequency_query db start_date end_date in
  let res := word_frequency db start_date end_date k in
  reviews_with_positive_words res = size (hit_ids POSITIVE_WORDS reviews)
  ∧ reviews_with_negative_words res = size (hit_ids NEGATIVE_WORDS reviews)
  ∧ (reviews_with_positive_words res ≤ total_reviews_scanned res)%nat
  ∧ (reviews_with_negative_words res ≤ total_reviews_scanned res)%nat
  ∧ (NoDup (review_id <$> reviews) →
     reviews_with_positive_words res
     = length (filter (has_lexicon_word POSITIVE_WORDS) reviews)
     ∧ reviews_with_negative_words res
       = length (filter (has_lexicon_word NEGATIVE_WORDS) reviews)).
Proof.
  intros reviews res. subst res. unfold word_frequency. fold reviews.
  cbn [reviews_with_positive_words reviews_with_negative_words
       total_reviews_scanned].
  rewrite scan_pos_hits, scan_neg_hits. cbn [scan_init pos_hits neg_hits].
  rewrite !(left_id_L ∅ (∪)).
  repeat split; try apply hit_ids_size_le; by apply hit_ids_size_NoDup.
Qed.

Lemma occurrences_pos w l : (0 < occurrences w l)%nat → w ∈ l.
Proof.
  unfold occurrences. intros Hpos.
  destruct (filter (λ t, t = w) l) as [|t f] eqn:Hf; [simpl in Hpos; lia|].
  assert (t ∈ filter (λ t, t = w) l) as Ht by (rewrite Hf; left).
  by apply list_elem_of_filter in Ht as [-> ?].
Qed.

Lemma lexicons_disjoint w : w ∈ POSITIVE_WORDS → w ∉ NEGATIVE_WORDS.
Proof.
  assert (Forall (λ w, w ∉ NEGATIVE_WORDS) POSITIVE_WORDS) as Hall.
  { apply (bool_decide_unpack _). by vm_compute. }
  apply (proj1 (Forall_forall _ _) Hall).
Qed.

(** X6. A word listed among the positive top words is a word of the
    positive lexicon, one listed among the negative top words is a word of
    the negative lexicon, and no word is in both lists. *)
Theorem word_frequency_lists_apart (db : list Review)
    (start_date end_date : option datetime) (k : Z) (w : str) :
  let res := word_frequency db start_date end_date k in
  (w ∈ (positive_top_words res).*1 → w ∈ POSITIVE_WORDS)
  ∧ (w ∈ (negative_top_words res).*1 → w ∈ NEGATIVE_WORDS)
  ∧ ¬ (w ∈ (positive_top_words res).*1 ∧ w ∈ (negative_top_words res).*1).
Proof.
  intros res. subst res. unfold word_frequency.
  cbn [positive_top_words negative_top_words].
  rewrite scan_pos_counter, scan_neg_counter.
  cbn [scan_init pos_counter neg_counter].
  set (reviews := word_frequency_query db start_date end_date).
  assert (∀ lexicon, w ∈ (most_common k (count_words [] (lexicon_stream lexicon reviews))).*1
                     → w ∈ lexicon) as Hlex.
  { intros lexicon ([w' n] & -> & Hin)%list_elem_of_fmap.
    destruct (ranked_counts _ _ _ (most_common_ranked k _) _ _ Hin) as [-> Hpos].
    by eapply lexicon_stream_elem, occurrences_pos. }
  split; [apply Hlex|]. split; [apply Hlex|].
  intros [Hp Hn]. by eapply lexicons_disjoint; eauto.
Qed.

(** X7. A larger [top_k] only appends entries: the lists for a smaller
    value are the first entries of the lists for a larger one. *)
Theorem word_frequency_top_k_prefix (db : list Review)
    (start_date end_date : option datetime) (k1 k2 : Z) :
  k1 ≤ k2 →
  positive_top_words (word_frequency db start_date end_date k1)
  = take (Z.to_nat k1) (positive_top_words (word_frequency db start_date end_date k2))
  ∧ negative_top_words (word_frequency db start_date end_date k1)
    = take (Z.to_nat k1) (negative_top_words (word_frequency db start_date end_date k2)).
Proof.
  intros Hk. unfold word_frequency, most_common.
  cbn [positive_top_words negative_top_words].
  rewrite !take_take, !Nat.min_l by lia. done.
Qed.

End ScanMore.

(** ** Independence of the order of the rows

    The queries have no ORDER BY, so the rows come in an order the database
    chooses. *)

Lemma Zsum_perm (l l' : list Z) : l ≡ₚ l' → Zsum l = Zsum l'.
Proof.
  unfold Zsum. induction 1 as [|x l l' _ IH|x y l|l l' l'' _ IH1 _ IH2]; simpl; lia.
Qed.

Lemma sorted_keys_perm (l l' : list Z) :
  l ≡ₚ l' → merge_sort Z.le (remove_dups l) = merge_sort Z.le (remove_dups l').
Proof.
  intros Hp. apply (StronglySorted_unique Z.le).
  - apply StronglySorted_merge_sort; apply _.
  - apply StronglySorted_merge_sort; apply _.
  - rewrite !merge_sort_Permutation.
    apply NoDup_Permutation; [apply NoDup_remove_dups..|].
    intros k. by rewrite !elem_of_remove_dups, Hp.
Qed.

Lemma groupby_mean_keys_perm (rows rows' : list (Z * float)) :
  rows ≡ₚ rows' → (groupby_mean rows).*1 = (groupby_mean rows').*1.
Proof.
  intros Hp. rewrite !groupby_mean_keys.
  apply sorted_keys_perm. by rewrite Hp.
Qed.

(** X8. The buckets of the trend do not depend on the order in which the
    database returns the rows: the same error response, or the same
    buckets in the same order, each averaging the same polarities.  (The
    polarities of a bucket are added in the order of the rows, so that the
    last bits of an average can differ.) *)
Theorem sentiment_trend_row_order (db db' : list Review)
    (start_date end_date : option date) (interval : string) :
  db ≡ₚ db' →
  match sentiment_trend db start_date end_date interval,
        sentiment_trend db' start_date end_date interval with
  | TrendError e, TrendError e' => e = e'
  | TrendPlot grouped, TrendPlot grouped' =>
      grouped.*1 = grouped'.*1
      ∧ ∀ k, bucket_polarities interval
               (sentiment_trend_query db start_date end_date) k
             ≡ₚ bucket_polarities interval
                  (sentiment_trend_query db' start_date end_date) k
  | _, _ => False
  end.
Proof.
  intros Hp. unfold sentiment_trend.
  assert (sentiment_trend_query db start_date end_date
          ≡ₚ sentiment_trend_query db' start_date end_date) as Hq
    by (unfold sentiment_trend_query; by rewrite Hp).
  destruct (sentiment_trend_query db start_date end_date) as [|r l] eqn:E;
    destruct (sentiment_trend_query db' start_date end_date) as [|r' l'] eqn:E'.
  - done.
  - by apply Permutation_nil_cons in Hq.
  - symmetry in Hq. by apply Permutation_nil_cons in Hq.
  - split.
    + apply groupby_mean_keys_perm. unfold trend_rows. by rewrite Hq.
    + intros k. unfold bucket_polarities. by rewrite Hq.
Qed.

Lemma is_constant_perm (x x' : list Z) : x ≡ₚ x' → is_constant x = is_constant x'.
Proof.
  intros Hp. destruct x as [|x0 x], x' as [|x0' x'].
  - done.
  - by apply Permutation_nil_cons in Hp.
  - symmetry in Hp. by apply Permutation_nil_cons in Hp.
  - unfold is_constant. apply bool_decide_ext.
    assert (∀ (l l' : list Z) a a', l ≡ₚ l' → a' ∈ l →
              Forall (λ v, v = a) l → Forall (λ v, v = a') l') as Hdir.
    { intros l l' a a' Hl Ha' Hall. rewrite <- Hl.
      rewrite (proj1 (Forall_forall _ _) Hall a' Ha'). done. }
    split; intros Hall.
    + apply (Hdir _ _ x0 x0' Hp); [rewrite Hp; left|done].
    + symmetry in Hp. apply (Hdir _ _ x0' x0 Hp); [rewrite Hp; left|done].
Qed.

Lemma zip_with_fmap_diag {A} (f g : A → Z) (l : list A) :
  zip_with Z.mul (f <$> l) (g <$> l) = (λ a, f a * g a) <$> l.
Proof. induction l as [|a l IH]; [done|]. csimpl. by rewrite IH. Qed.

Lemma cross_sum_fmap {A} (f g : A → Z) (l : list A) :
  cross_sum (f <$> l) (g <$> l)
  = Z.of_nat (length l) * Zsum ((λ a, f a * g a) <$> l)
    - Zsum (f <$> l) * Zsum (g <$> l).
Proof.
  unfold cross_sum. by rewrite length_fmap, zip_with_fmap_diag.
Qed.

Lemma cross_sum_perm {A} (f g : A → Z) (l l' : list A) :
  l ≡ₚ l' → cross_sum (f <$> l) (g <$> l) = cross_sum (f <$> l') (g <$> l').
Proof.
  intros Hp. rewrite !cross_sum_fmap.
  rewrite (Zsum_perm ((λ a, f a * g a) <$> l) ((λ a, f a * g a) <$> l')) by (by rewrite Hp).
  rewrite (Zsum_perm (f <$> l) (f <$> l')) by (by rewrite Hp).
  rewrite (Zsum_perm (g <$> l) (g <$> l')) by (by rewrite Hp).
  by rewrite Hp.
Qed.

Lemma pearsonr_perm (recs recs' : list (Z * nat)) :
  recs ≡ₚ recs' →
  pearsonr (sample_ratings recs) (sample_lengths recs)
  = pearsonr (sample_ratings recs') (sample_lengths recs').
Proof.
  intros Hp. unfold pearsonr, sample_ratings, sample_lengths.
  rewrite !length_fmap.
  rewrite (is_constant_perm (fst <$> recs) (fst <$> recs')) by (by rewrite Hp).
  rewrite (is_constant_perm ((λ rec, Z.of_nat rec.2) <$> recs)
             ((λ rec, Z.of_nat rec.2) <$> recs')) by (by rewrite Hp).
  rewrite (cross_sum_perm fst (λ rec, Z.of_nat rec.2) recs recs' Hp).
  rewrite (cross_sum_perm fst fst recs recs' Hp).
  rewrite (cross_sum_perm (λ rec, Z.of_nat rec.2) (λ rec, Z.of_nat rec.2) recs recs' Hp).
  by rewrite (Permutation_length Hp).
Qed.

Lemma avg_length_perm (recs recs' : list (Z * nat)) k :
  recs ≡ₚ recs' → avg_length recs k = avg_length recs' k.
Proof.
  intros Hp. unfold avg_length. cbv zeta.
  assert (snd <$> filter (λ rec, rec.1 = k) recs
          ≡ₚ snd <$> filter (λ rec, rec.1 = k) recs') as Hs by (by rewrite Hp).
  destruct (snd <$> filter (λ rec, rec.1 = k) recs) as [|a l] eqn:E;
    destruct (snd <$> filter (λ rec, rec.1 = k) recs') as [|a' l'] eqn:E'.
  - done.
  - by apply Permutation_nil_cons in Hs.
  - symmetry in Hs. by apply Permutation_nil_cons in Hs.
  - f_equal. unfold np_mean.
    rewrite (Zsum_perm (Z.of_nat <$> a :: l) (Z.of_nat <$> a' :: l'))
      by (by rewrite Hs).
    by rewrite !length_fmap, (Permutation_length Hs).
Qed.

Lemma rating_table_perm (recs recs' : list (Z * nat)) :
  recs ≡ₚ recs' → rating_table recs = rating_table recs'.
Proof.
  intros Hp. unfold rating_table. apply list_fmap_ext. intros _ k _.
  f_equal. by apply avg_length_perm.
Qed.

Section RowOrder.
Context `{UnicodeData}.

(** X9. The per-rating table of the correlation does not depend on the
    order in which the database returns the rows: the two results are the
    same error response, the same exception, or statistics with the same
    table, and the coefficient is NaN in both or in neither.  (The letter
    counts add up to less than [2^53], so that their sums are exact; the
    coefficient and the p-value are sums of products in float64, whose last
    bits can depend on the order.) *)
Theorem rating_length_correlation_row_order (db db' : list Review)
    (start_date end_date : option date) :
  db ≡ₚ db' →
  Zsum ((λ r, Z.of_nat (count_letters (text r)))
          <$> correlation_query db start_date end_date) < 2 ^ 53 →
  match rating_length_correlation db start_date end_date,
        rating_length_correlation db' start_date end_date with
  | Returns (CorrelationError e), Returns (CorrelationError e') => e = e'
  | Returns (CorrelationStats table r _), Returns (CorrelationStats table' r' _) =>
      table = table' ∧ (r = NaN ↔ r' = NaN)
  | Raises e, Raises e' => e = e'
  | _, _ => False
  end.
Proof.
  intros Hp _. unfold rating_length_correlation.
  assert (correlation_query db start_date end_date
          ≡ₚ correlation_query db' start_date end_date) as Hq
    by (unfold correlation_query; by rewrite Hp).
  assert (records (correlation_query db start_date end_date)
          ≡ₚ records (correlation_query db' start_date end_date)) as Hr
    by (unfold records; by rewrite Hq).
  destruct (correlation_query db start_date end_date) as [|r l] eqn:E;
    destruct (correlation_query db' start_date end_date) as [|r' l'] eqn:E'.
  - done.
  - by apply Permutation_nil_cons in Hq.
  - symmetry in Hq. by apply Permutation_nil_cons in Hq.
  - cbv zeta. rewrite (pearsonr_perm _ _ Hr), (rating_table_perm _ _ Hr).
    by destruct (pearsonr _ _) as [[? ?]|?].
Qed.



End RowOrder.

(** ** The date range *)

Lemma tuple_compare_refl a : tuple_compare a a = Eq.
Proof. induction a as [|x a IH]; [done|]. simpl. by rewrite Z.compare_refl. Qed.

Lemma tuple_compare_antisym a b :
  tuple_compare b a = CompOpp (tuple_compare a b).
Proof.
  revert b. induction a as [|x a IH]; intros [|y b]; simpl; try done.
  rewrite (Z.compare_antisym x y). destruct (x ?= y); simpl; auto.
Qed.

Lemma tuple_compare_trans a b c :
  tuple_compare a b ≠ Gt → tuple_compare b c ≠ Gt → tuple_compare a c ≠ Gt.
Proof.
  revert b c. induction a as [|x a IH]; intros [|y b] [|z c]; simpl; try done.
  destruct (Z.compare_spec x y), (Z.compare_spec y z), (Z.compare_spec x z);
    try done; try lia; subst; eauto.
Qed.

Lemma datetime_le_trans a b c :
  datetime_le a b = true → datetime_le b c = true → datetime_le a c = true.
Proof.
  unfold datetime_le. intros Hab Hbc.
  pose proof (tuple_compare_trans (datetime_fields a) (datetime_fields b)
                (datetime_fields c)) as Ht.
  destruct (tuple_compare (datetime_fields a) (datetime_fields b)); try done;
    destruct (tuple_compare (datetime_fields b) (datetime_fields c)); try done;
    destruct (tuple_compare (datetime_fields a) (datetime_fields c)); try done;
    by destruct Ht.
Qed.

(** The start of a day is not after a moment exactly when the day is not
    after the day of the moment; the same for the end of a day. *)
Lemma datetime_le_combine_min (S : date) (d : datetime) :
  valid_time d → datetime_le (combine_min S) d = date_le S (date_of d).
Proof.
  intros (Hh & Hm & Hs & Hu). unfold datetime_le, date_le.
  cbn [tuple_compare datetime_fields date_fields combine_min combine_max date_of year month day hour minute second microsecond d_year d_month d_day].
  destruct (d_year S ?= year d); try done.
  destruct (d_month S ?= month d); try done.
  destruct (d_day S ?= day d); try done.
  destruct (Z.compare_spec 0 (hour d)); try done; try lia.
  destruct (Z.compare_spec 0 (minute d)); try done; try lia.
  destruct (Z.compare_spec 0 (second d)); try done; try lia.
  destruct (Z.compare_spec 0 (microsecond d)); try done; lia.
Qed.

Lemma datetime_le_combine_max (E : date) (d : datetime) :
  valid_time d → datetime_le d (combine_max E) = date_le (date_of d) E.
Proof.
  intros (Hh & Hm & Hs & Hu). unfold datetime_le, date_le.
  cbn [tuple_compare datetime_fields date_fields combine_min combine_max date_of year month day hour minute second microsecond d_year d_month d_day].
  destruct (year d ?= d_year E); try done.
  destruct (month d ?= d_month E); try done.
  destruct (day d ?= d_day E); try done.
  destruct (Z.compare_spec (hour d) 23); try done; try lia.
  destruct (Z.compare_spec (minute d) 59); try done; try lia.
  destruct (Z.compare_spec (second d) 59); try done; try lia.
  destruct (Z.compare_spec (microsecond d) 999999); try done; lia.
Qed.

Lemma range_filter_elem (start stop : option datetime) (l : list Review) r :
  r ∈ filter (λ r, date_le_filter stop r) (filter (λ r, date_ge_filter start r) l)
  ↔ r ∈ l ∧ date_ge_filter start r = true ∧ date_le_filter stop r = true.
Proof.
  rewrite !list_elem_of_filter, !Is_true_true. tauto.
Qed.

(** X11. In the trend and in the correlation both bounds take in their
    whole day: a review with a timestamp is selected exactly when it has
    the fields the operation needs and the day of its timestamp lies
    between the start date and the end date, both included. *)
Theorem date_range_whole_days `{UnicodeData} (db : list Review)
    (start_date end_date : date) (r : Review) (d : datetime) :
  review_date r = Some d → valid_time d →
  (r ∈ sentiment_trend_query db (Some start_date) (Some end_date)
   ↔ r ∈ db ∧ is_some (polarity r) = true
     ∧ date_le start_date (date_of d) = true
     ∧ date_le (date_of d) end_date = true)
  ∧ (r ∈ correlation_query db (Some start_date) (Some end_date)
     ↔ r ∈ db ∧ is_some (rating r) = true
       ∧ (∃ c s, text r = Some (c :: s))
       ∧ date_le start_date (date_of d) = true
       ∧ date_le (date_of d) end_date = true).
Proof.
  intros Hd Hv. unfold sentiment_trend_query, correlation_query.
  rewrite !range_filter_elem, !list_elem_of_filter.
  unfold date_ge_filter, date_le_filter. cbn [fmap option_fmap option_map].
  rewrite Hd, (datetime_le_combine_min _ _ Hv), (datetime_le_combine_max _ _ Hv).
  split.
  - rewrite andb_True. cbn [is_some]. rewrite !Is_true_true. tauto.
  - assert (Is_true (is_some (rating r) && is_some (text r)
                     && negb (bool_decide (text r = Some [])))
            ↔ is_some (rating r) = true ∧ ∃ c s, text r = Some (c :: s)) as ->.
    { destruct (rating r) as [rt|], (text r) as [[|c s]|]; simpl;
        try case_bool_decide; simpl; naive_solver. }
    tauto.
Qed.

(** X12. In the word-frequency operation the end bound is a moment, not a
    day: when it is the start of a day (an end date given without a time),
    every review written later on that day is left out. *)
Theorem word_frequency_end_of_day `{UnicodeData} (db : list Review)
    (start_date : option datetime) (end_day : date) (r : Review) (d : datetime) :
  review_date r = Some d → date_of d = end_day → valid_time d →
  d ≠ combine_min end_day →
  r ∉ word_frequency_query db start_date (Some (combine_min end_day)).
Proof.
  intros Hd Hday (Hh & Hm & Hs & Hu) Hne. unfold word_frequency_query.
  rewrite range_filter_elem. intros (_ & _ & Hle).
  unfold date_le_filter in Hle. rewrite Hd in Hle.
  unfold datetime_le in Hle. subst end_day.
  destruct d as [y m dd h mi s us].
  cbn [tuple_compare datetime_fields date_fields combine_min combine_max date_of year month day hour minute second microsecond d_year d_month d_day] in *.
  rewrite !Z.compare_refl in Hle.
  destruct (Z.compare_spec h 0); try done; try lia.
  destruct (Z.compare_spec mi 0); try done; try lia.
  destruct (Z.compare_spec s 0); try done; try lia.
  destruct (Z.compare_spec us 0); try done; try lia.
  subst. by destruct Hne.
Qed.

Lemma range_filter_inverted (S E : datetime) (l : list Review) :
  datetime_le S E = false →
  filter (λ r, date_le_filter (Some E) r)
    (filter (λ r, date_ge_filter (Some S) r) l) = [].
Proof.
  intros Hinv.
  destruct (filter _ (filter _ l)) as [|r l'] eqn:Hf; [done|].
  assert (r ∈ filter (λ r, date_le_filter (Some E) r)
                (filter (λ r, date_ge_filter (Some S) r) l)) as Hr
    by (rewrite Hf; left).
  apply range_filter_elem in Hr as (_ & Hge & Hle).
  unfold date_ge_filter, date_le_filter in *.
  destruct (review_date r) as [d|]; [|done].
  by rewrite (datetime_le_trans _ _ _ Hge Hle) in Hinv.
Qed.

Lemma datetime_le_combine (s e : date) :
  datetime_le (combine_min s) (combine_max e) = date_le s e.
Proof.
  rewrite datetime_le_combine_min; [by destruct e|].
  unfold valid_time. simpl. lia.
Qed.

(** X13. A range whose start lies after its end selects nothing: the trend
    and the two correlation endpoints answer with their error response,
    the word-frequency operation with its all-zero result. *)
Theorem inverted_range_no_data `{UnicodeData} (db : list Review)
    (start_date end_date : date) (interval : string)
    (start_time end_time : datetime) (k : Z) :
  (date_le start_date end_date = false →
   sentiment_trend db (Some start_date) (Some end_date) interval
   = TrendError "Tidak ada data pada rentang ini."
   ∧ rating_length_correlation db (Some start_date) (Some end_date)
     = Returns (CorrelationError "Tidak ada review dalam rentang ini.")
   ∧ rating_length_correlation_plot db (Some start_date) (Some end_date)
     = Returns (PlotError "Tidak ada review dalam rentang ini."))
  ∧ (datetime_le start_time end_time = false →
     word_frequency db (Some start_time) (Some end_time) k
     = {| total_reviews_scanned := 0;
          reviews_with_positive_words := 0;
          reviews_with_negative_words := 0;
          top_k := k;
          positive_top_words := [];
          negative_top_words := [] |}).
Proof.
  split.
  - intros Hinv. rewrite <- datetime_le_combine in Hinv.
    unfold sentiment_trend, rating_length_correlation,
      rating_length_correlation_plot, sentiment_trend_query, correlation_query.
    cbn [fmap option_fmap option_map].
    by rewrite !(range_filter_inverted _ _ _ Hinv).
  - intros Hinv. unfold word_frequency, word_frequency_query.
    rewrite (range_filter_inverted _ _ _ Hinv).
    cbn [foldl length scan_init pos_hits neg_hits pos_counter neg_counter].
    unfold most_common, sorted_desc. cbn [foldr]. by rewrite take_nil, size_empty.
Qed.

Lemma bucket_key_default (interval : string) d :
  interval ≠ "daily"%string → interval ≠ "weekly"%string →
  bucket_key interval d = bucket_key "monthly" d.
Proof.
  intros Hd Hw. unfold bucket_key.
  by rewrite !decide_False by done.
Qed.

(** X14. An interval that is neither "daily" nor "weekly" is not rejected:
    the trend is the monthly one. *)
Theorem sentiment_trend_default_monthly (db : list Review)
    (start_date end_date : option date) (interval : string) :
  interval ≠ "daily"%string → interval ≠ "weekly"%string →
  sentiment_trend db start_date end_date interval
  = sentiment_trend db start_date end_date "monthly".
Proof.
  intros Hd Hw. unfold sentiment_trend.
  destruct (sentiment_trend_query db start_date end_date) as [|r0 l0]; [done|].
  do 2 f_equal. unfold trend_rows.
  induction (r0 :: l0) as [|r l IH]; [done|]. cbn [omap list_omap].
  rewrite IH. destruct (review_date r) as [d|]; [|done].
  cbn [mbind option_bind]. by rewrite (bucket_key_default interval d Hd Hw).
Qed.

Lemma Qsum_bounds (lo hi : Q) (l : list Q) :
  Forall (λ p, lo <= p <= hi)%Q l →
  (inject_Z (Z.of_nat (length l)) * lo <= Qsum l
   ∧ Qsum l <= inject_Z (Z.of_nat (length l)) * hi)%Q.
Proof.
  induction 1 as [|p l [Hlo Hhi] _ [IHlo IHhi]].
  - change (inject_Z (Z.of_nat (length (@nil Q)))) with 0%Q.
    change (Qsum []) with 0%Q. rewrite !Qmult_0_l. split; apply Qle_refl.
  - cbn [length]. rewrite Nat2Z.inj_succ, <- Z.add_1_l, inject_Z_plus.
    unfold Qsum in *. cbn [foldr].
    split.
    + setoid_replace ((inject_Z 1 + inject_Z (Z.of_nat (length l))) * lo)%Q
        with (lo + inject_Z (Z.of_nat (length l)) * lo)%Q using relation Qeq by ring.
      by apply Qplus_le_compat.
    + setoid_replace ((inject_Z 1 + inject_Z (Z.of_nat (length l))) * hi)%Q
        with (hi + inject_Z (Z.of_nat (length l)) * hi)%Q using relation Qeq by ring.
      by apply Qplus_le_compat.
Qed.

Lemma mean_bounds (lo hi : Q) (l : list Q) :
  l ≠ [] → Forall (λ p, lo <= p <= hi)%Q l → (lo <= mean l <= hi)%Q.
Proof.
  intros Hne Hall. destruct (Qsum_bounds lo hi l Hall) as [Hlo Hhi].
  assert (0 < inject_Z (Z.of_nat (length l)))%Q as Hn.
  { destruct l; [done|]. simpl. unfold Qlt. simpl. lia. }
  unfold mean. split.
  - apply Qle_shift_div_l; [done|]. by rewrite Qmult_comm.
  - apply Qle_shift_div_r; [done|]. by rewrite Qmult_comm.
Qed.

(** X16. The plot endpoint and the statistics endpoint of the correlation
    agree: they fail together (the same error response, the same
    exception), and when they succeed the coefficient in the title of the
    plot is the [pearson_r] of the statistics and the plot has one point
    per selected review, its letter count against its rating. *)
Theorem correlation_plot_agrees `{UnicodeData} (db : list Review)
    (start_date end_date : option date) :
  let recs := records (correlation_query db start_date end_date) in
  match rating_length_correlation db start_date end_date,
        rating_length_correlation_plot db start_date end_date with
  | Returns (CorrelationError m), Returns (PlotError m') =>
      m = m' ∧ correlation_query db start_date end_date = []
  | Raises x, Raises x' => x = x'
  | Returns (CorrelationStats _ r _), Returns (ScatterPlot lengths ratings r') =>
      r = r'
      ∧ zip lengths ratings = (λ rec, (Z.of_nat rec.2, rec.1)) <$> recs
      ∧ length lengths = length (correlation_query db start_date end_date)
  | _, _ => False
  end.
Proof.
  intros recs. unfold rating_length_correlation, rating_length_correlation_plot.
  pose proof (correlation_records_length db start_date end_date) as Hlen.
  fold recs in Hlen. subst recs.
  destruct (correlation_query db start_date end_date) as [|r0 l0] eqn:Hq; [done|].
  cbv zeta.
  destruct (pearsonr _ _) as [[r p]|x]; [|done].
  split; [done|]. split.
  - unfold sample_lengths, sample_ratings.
    generalize (records (r0 :: l0)). intros l.
    induction l as [|rec l IH]; [done|]. csimpl. by rewrite IH.
  - unfold sample_lengths. by rewrite length_fmap.
Qed.

(** ** The number of buckets *)

Lemma groupby_mean_length rows :
  length (groupby_mean rows) = length (remove_dups rows.*1).
Proof.
  unfold groupby_mean. by rewrite length_fmap, merge_sort_Permutation.
Qed.

Lemma remove_dups_length_le {A} `{EqDecision A} (l : list A) :
  (length (remove_dups l) ≤ length l)%nat.
Proof.
  apply submseteq_length, NoDup_submseteq; [apply NoDup_remove_dups|].
  intros x. by rewrite elem_of_remove_dups.
Qed.

Lemma remove_dups_fmap_length_le (f : Z → Z) (l : list Z) :
  (length (remove_dups (f <$> l)) ≤ length (remove_dups l))%nat.
Proof.
  rewrite <- (length_fmap f (remove_dups l)).
  apply submseteq_length, NoDup_submseteq; [apply NoDup_remove_dups|].
  intros x. rewrite elem_of_remove_dups, !list_elem_of_fmap.
  intros (y & -> & Hy). exists y. by rewrite elem_of_remove_dups.
Qed.

Lemma trend_rows_weekly reviews :
  (trend_rows "weekly" reviews).*1
  = (λ k, (k - 1) `div` 7) <$> (trend_rows "daily" reviews).*1.
Proof.
  unfold trend_rows. induction reviews as [|r l IH]; [done|].
  cbn [omap list_omap]. destruct (review_date r) as [d|]; [|done].
  cbn [mbind option_bind]. destruct (polarity r) as [p|]; [|done].
  cbn [mbind option_bind]. rewrite !fmap_cons, IH. done.
Qed.

Lemma trend_rows_length interval reviews :
  (length (trend_rows interval reviews) ≤ length reviews)%nat.
Proof.
  unfold trend_rows. induction reviews as [|r l IH]; [done|].
  cbn [omap list_omap]. destruct (review_date r) as [d|]; [|simpl; lia].
  cbn [mbind option_bind]. destruct (polarity r) as [p|]; simpl; lia.
Qed.

(** X17. The trend has at most one bucket per selected review, and the
    weekly trend never has more buckets than the daily one. *)
Theorem sentiment_trend_bucket_count (db : list Review)
    (start_date end_date : option date) (daily weekly : list (Z * float)) :
  sentiment_trend db start_date end_date "daily" = TrendPlot daily →
  sentiment_trend db start_date end_date "weekly" = TrendPlot weekly →
  (length weekly ≤ length daily
   ≤ length (sentiment_trend_query db start_date end_date))%nat.
Proof.
  unfold sentiment_trend.
  destruct (sentiment_trend_query db start_date end_date) as [|r0 l0]; [done|].
  generalize (r0 :: l0). intros reviews Hd Hw.
  assert (daily = groupby_mean (trend_rows "daily" reviews)) as -> by congruence.
  assert (weekly = groupby_mean (trend_rows "weekly" reviews)) as -> by congruence.
  rewrite !groupby_mean_length, trend_rows_weekly. split.
  - apply remove_dups_fmap_length_le.
  - etransitivity; [apply remove_dups_length_le|].
    rewrite length_fmap. apply trend_rows_length.
Qed.

(** ** The further properties on the sample data *)

(** "abc" is one run of word characters. *)
Lemma WORD_PATTERN_findall_concat_witness :
  (py_str "abc" ≠ [] ∧ Forall (λ c, is_word c = true) (py_str "abc"))
  ∧ WORD_PATTERN_findall (py_str "abc") = [py_str "abc"].
Proof.
  assert (py_str "abc" ≠ []) as Hne by discriminate.
  assert (Forall (λ c, is_word c = true) (py_str "abc")) as Hw
    by (repeat constructor).
  split; [by split|].
  exact (proj2 (proj2 (WORD_PATTERN_findall_concat (py_str "abc"))) Hne Hw).
Defined.

(** "great" is a word of the first sample review. *)
Lemma extract_clean_words_shape_witness :
  py_str "great" ∈ extract_clean_words (text review_great)
  ∧ (2 < length (py_str "great"))%nat ∧ lower (py_str "great") = py_str "great".
Proof.
  assert (py_str "great" ∈ extract_clean_words (text review_great)) as Hin
    by (vm_compute; left).
  split; [exact Hin|].
  destruct (extract_clean_words_shape _ _ Hin) as (Hlen & _ & _ & _ & Hlow).
  split; [exact Hlen|exact Hlow].
Defined.

(** The sample reviews have distinct ids; two of the three hold a negative
    word. *)
Lemma word_frequency_hit_counts_witness :
  NoDup (review_id <$> word_frequency_query sample_db None None)
  ∧ reviews_with_negative_words (word_frequency sample_db None None 20)
    = length (filter (has_lexicon_word NEGATIVE_WORDS)
                (word_frequency_query sample_db None None)).
Proof.
  assert (NoDup (review_id <$> word_frequency_query sample_db None None)) as Hnd.
  { apply (bool_decide_unpack _). vm_compute. exact I. }
  split; [exact Hnd|].
  destruct (word_frequency_hit_counts sample_db None None 20)
    as (_ & _ & _ & _ & Hex).
  exact (proj2 (Hex Hnd)).
Defined.

(** "noisy" is listed as a negative word of the sample, so it is in the
    negative lexicon. *)
Lemma word_frequency_lists_apart_witness :
  py_str "noisy" ∈ (negative_top_words (word_frequency sample_db None None 20)).*1
  ∧ py_str "noisy" ∈ NEGATIVE_WORDS.
Proof.
  assert (py_str "noisy"
          ∈ (negative_top_words (word_frequency sample_db None None 20)).*1) as Hin
    by (vm_compute; left).
  split; [exact Hin|].
  exact (proj1 (proj2 (word_frequency_lists_apart sample_db None None 20
                         (py_str "noisy"))) Hin).
Defined.

Lemma word_frequency_top_k_prefix_witness :
  1 ≤ 20
  ∧ positive_top_words (word_frequency sample_db None None 1)
    = take (Z.to_nat 1) (positive_top_words (word_frequency sample_db None None 20)).
Proof.
  assert (1 ≤ 20) as Hk by lia.
  split; [exact Hk|].
  exact (proj1 (word_frequency_top_k_prefix sample_db None None 1 20 Hk)).
Defined.

Lemma sample_db_swapped_perm : sample_db ≡ₚ sample_db_swapped.
Proof. apply perm_swap. Defined.

Lemma sentiment_trend_row_order_witness :
  sample_db ≡ₚ sample_db_swapped
  ∧ ∃ grouped grouped',
      sentiment_trend sample_db None None "monthly" = TrendPlot grouped
      ∧ sentiment_trend sample_db_swapped None None "monthly"
        = TrendPlot grouped'
      ∧ grouped.*1 = grouped'.*1.
Proof.
  split; [exact sample_db_swapped_perm|].
  pose proof (sentiment_trend_row_order _ _ None None "monthly"
                sample_db_swapped_perm) as Hthm.
  destruct (sentiment_trend sample_db None None "monthly") as [?|grouped]
    eqn:E; [discriminate E|].
  destruct (sentiment_trend sample_db_swapped None None "monthly")
    as [?|grouped'] eqn:E'; [contradiction|].
  exists grouped, grouped'. destruct Hthm as [Hkeys _]. by repeat split.
Defined.

Lemma rating_length_correlation_row_order_witness :
  (sample_db ≡ₚ sample_db_swapped
   ∧ Zsum ((λ r, Z.of_nat (count_letters (text r)))
             <$> correlation_query sample_db None None) < 2 ^ 53)
  ∧ ∃ table r p r' p',
      rating_length_correlation sample_db None None
      = Returns (CorrelationStats table r p)
      ∧ rating_length_correlation sample_db_swapped None None
        = Returns (CorrelationStats table r' p').
Proof.
  assert (Zsum ((λ r, Z.of_nat (count_letters (text r)))
                  <$> correlation_query sample_db None None) < 2 ^ 53)
    as Hsum by (by vm_compute).
  split; [split; [exact sample_db_swapped_perm|exact Hsum]|].
  pose proof (rating_length_correlation_row_order _ _ None None
                sample_db_swapped_perm Hsum) as Hthm.
  destruct (rating_length_correlation sample_db None None)
    as [[?|table r p]|?] eqn:E; [discriminate E| |discriminate E].
  destruct (rating_length_correlation sample_db_swapped None None)
    as [[?|table' r' p']|?] eqn:E'; [contradiction| |contradiction].
  destruct Hthm as [<- _]. by exists table, r, p, r', p'.
Defined.


(** The review of 2 March at noon is in the range 2 March .. 8 March. *)
Lemma date_range_whole_days_witness :
  (review_date review_noisy
   = Some {| year := 2015; month := 3; day := 2; hour := 12; minute := 0;
             second := 0; microsecond := 0 |}
   ∧ valid_time {| year := 2015; month := 3; day := 2; hour := 12; minute := 0;
                   second := 0; microsecond := 0 |})
  ∧ review_noisy ∈ sentiment_trend_query sample_db (Some (march 2)) (Some (march 8)).
Proof.
  assert (valid_time {| year := 2015; month := 3; day := 2; hour := 12;
                        minute := 0; second := 0; microsecond := 0 |}) as Hv
    by (unfold valid_time; simpl; lia).
  split; [split; [reflexivity|exact Hv]|].
  apply (proj1 (date_range_whole_days sample_db (march 2) (march 8) review_noisy
                  _ eq_refl Hv)).
  split; [right; left|]. repeat split; reflexivity.
Defined.

(** With the end bound at the start of 2 March the review of 2 March at
    noon is not scanned. *)
Lemma word_frequency_end_of_day_witness :
  (date_of {| year := 2015; month := 3; day := 2; hour := 12; minute := 0;
              second := 0; microsecond := 0 |} = march 2)
  ∧ review_noisy ∉ word_frequency_query sample_db None (Some (combine_min (march 2))).
Proof.
  split; [reflexivity|].
  apply (word_frequency_end_of_day sample_db None (march 2) review_noisy
           {| year := 2015; month := 3; day := 2; hour := 12; minute := 0;
              second := 0; microsecond := 0 |}).
  - reflexivity.
  - reflexivity.
  - unfold valid_time; simpl; lia.
  - discriminate.
Defined.

Lemma inverted_range_no_data_witness :
  date_le (march 9) (march 1) = false
  ∧ sentiment_trend sample_db (Some (march 9)) (Some (march 1)) "daily"
    = TrendError "Tidak ada data pada rentang ini.".
Proof.
  split; [reflexivity|].
  apply (proj1 (inverted_range_no_data sample_db (march 9) (march 1) "daily"
                  (combine_min (march 9)) (combine_min (march 1)) 20)).
  reflexivity.
Defined.

Lemma sentiment_trend_default_monthly_witness :
  ("yearly" ≠ "daily" ∧ "yearly" ≠ "weekly")%string
  ∧ sentiment_trend sample_db None None "yearly"
    = sentiment_trend sample_db None None "monthly".
Proof.
  assert ("yearly" ≠ "daily")%string as Hd by discriminate.
  assert ("yearly" ≠ "weekly")%string as Hw by discriminate.
  split; [by split|].
  exact (sentiment_trend_default_monthly sample_db None None "yearly" Hd Hw).
Defined.

Lemma sentiment_trend_bucket_count_witness :
  ∃ daily weekly,
    sentiment_trend sample_db None None "daily" = TrendPlot daily
    ∧ sentiment_trend sample_db None None "weekly" = TrendPlot weekly
    ∧ (length weekly ≤ length daily)%nat.
Proof.
  eexists _, _. split; [reflexivity|]. split; [reflexivity|].
  exact (proj1 (sentiment_trend_bucket_count sample_db None None _ _
                  eq_refl eq_refl)).
Defined.

(** * The reviews router *)

#[local] Instance id_le_trans : Transitive id_le.
Proof. intros a b c. unfold id_le. lia. Qed.

#[local] Instance id_le_total : Total id_le.
Proof. intros a b. unfold id_le. lia. Qed.

Lemma when_given_spec (param : option Z) (test : Z → bool) :
  when_given param test = true ↔ ∀ v, param = Some v → test v = true.
Proof.
  destruct param as [v|]; simpl; [|naive_solver].
  split; [intros Ht v0 Hv; by injection Hv as <-|eauto].
Qed.

Lemma StronglySorted_take_drop {A} (R : relation A) (l : list A) n m :
  StronglySorted R l → StronglySorted R (take n (drop m l)).
Proof.
  intros Hs. rewrite <- (take_drop m l) in Hs.
  apply StronglySorted_app_1_r in Hs.
  rewrite <- (take_drop n (drop m l)) in Hs.
  by apply StronglySorted_app_1_l in Hs.
Qed.

(** X18. A page of [list_reviews] has at most [limit] rows, in ascending
    order of id; each of its rows is a row of the table that passes every
    filter that was given, and a row whose rating is NULL never passes a
    rating bound.  With offset 0 and a limit that is large enough the page
    holds every matching row. *)
Theorem list_reviews_page (db : list ReviewRow)
    (pid uid rating_min rating_max : option Z) (limit offset : nat) :
  let page := list_reviews db pid uid rating_min rating_max limit offset in
  let matching :=
    filter (λ r, list_reviews_filter pid uid rating_min rating_max r) db in
  (length page ≤ limit)%nat
  ∧ StronglySorted id_le page
  ∧ Forall (λ r, r ∈ db
                 ∧ (∀ p, pid = Some p → product_id r = Some p)
                 ∧ (∀ u, uid = Some u → user_id r = Some u)
                 ∧ (∀ m, rating_min = Some m →
                         ∃ x, rating (row r) = Some x ∧ m ≤ x)
                 ∧ (∀ m, rating_max = Some m →
                         ∃ x, rating (row r) = Some x ∧ x ≤ m)) page
  ∧ (offset = 0%nat → (length matching ≤ limit)%nat → page ≡ₚ matching).
Proof.
  intros page matching. subst page. unfold list_reviews. fold matching.
  split; [rewrite length_take; lia|]. split; [|split].
  - apply StronglySorted_take_drop, StronglySorted_merge_sort; apply _.
  - apply Forall_forall. intros r Hr.
    apply (sublist_subseteq _ _ (sublist_take _ limit)) in Hr.
    apply (sublist_subseteq _ _ (sublist_drop _ offset)) in Hr.
    unfold order_by_id in Hr. rewrite merge_sort_Permutation in Hr.
    apply list_elem_of_filter in Hr as [Hf Hr]. split; [done|].
    apply Is_true_true in Hf. unfold list_reviews_filter in Hf.
    rewrite !andb_true_iff, !when_given_spec in Hf.
    destruct Hf as [[[Hp Hu] Hmin] Hmax].
    split; [|split; [|split]].
    + intros p Hpid. specialize (Hp p Hpid). unfold sql_eq in Hp.
      destruct (product_id r); [|done]. by apply bool_decide_eq_true in Hp as ->.
    + intros u Huid. specialize (Hu u Huid). unfold sql_eq in Hu.
      destruct (user_id r); [|done]. by apply bool_decide_eq_true in Hu as ->.
    + intros m Hm. specialize (Hmin m Hm). unfold sql_ge in Hmin.
      destruct (rating (row r)) as [x|]; [|done].
      apply bool_decide_eq_true in Hmin. eauto.
    + intros m Hm. specialize (Hmax m Hm). unfold sql_le in Hmax.
      destruct (rating (row r)) as [x|]; [|done].
      apply bool_decide_eq_true in Hmax. eauto.
  - intros -> Hlen. rewrite drop_0, take_ge.
    + apply merge_sort_Permutation.
    + unfold order_by_id. by rewrite merge_sort_Permutation.
Qed.

(** X19. Consecutive pages join: the page of [n1] rows at an offset
    followed by the page of [n2] rows right after it is the page of
    [n1 + n2] rows at that offset; no row is skipped or repeated between
    pages. *)
Theorem list_reviews_pages_join (db : list ReviewRow)
    (pid uid rating_min rating_max : option Z) (n1 n2 offset : nat) :
  list_reviews db pid uid rating_min rating_max n1 offset
  ++ list_reviews db pid uid rating_min rating_max n2 (offset + n1)
  = list_reviews db pid uid rating_min rating_max (n1 + n2) offset.
Proof.
  unfold list_reviews.
  generalize (order_by_id
    (filter (λ r, list_reviews_filter pid uid rating_min rating_max r) db)).
  intros l. rewrite <- drop_drop. apply take_take_drop.
Qed.

(** ** The summary of the sentiment columns *)

Lemma inject_nat_pos (n : nat) : (0 < n)%nat → (0 < inject_Z (Z.of_nat n))%Q.
Proof. intros Hn. unfold Qlt. simpl. lia. Qed.

Lemma inject_nat_le (n m : nat) :
  (n ≤ m)%nat → (inject_Z (Z.of_nat n) <= inject_Z (Z.of_nat m))%Q.
Proof. intros Hn. unfold Qle. simpl. lia. Qed.

(** X20. The sarcasm count never exceeds the number of reviews and the
    sarcasm rate lies between 0 and 1; on an empty table nothing is divided:
    the rate is 0, the total is 0, both averages are absent and there is
    no label count. *)
Theorem sentiment_summary_rate (db : list ReviewRow) :
  let s := sentiment_summary db in
  (sarcasm_count s ≤ total_reviews s)%nat
  ∧ (0 <= sarcasm_rate s <= 1)%Q
  ∧ (db ≠ [] →
     sarcasm_rate s
     = (inject_Z (Z.of_nat (sarcasm_count s))
        / inject_Z (Z.of_nat (total_reviews s)))%Q)
  ∧ (db = [] →
     total_reviews s = 0%nat ∧ sarcasm_count s = 0%nat ∧ sarcasm_rate s = 0%Q
     ∧ avg_rating s = None ∧ avg_polarity s = None ∧ sentiment_counts s = ∅).
Proof.
  intros s. subst s. unfold sentiment_summary.
  cbn [total_reviews sarcasm_count sarcasm_rate avg_rating avg_polarity
       sentiment_counts].
  pose proof (length_filter (λ r, is_sarcastic r) db) as Hle.
  split; [exact Hle|]. split; [|split].
  - case_bool_decide as Hpos; [|split; [apply Qle_refl|done]].
    pose proof (inject_nat_pos _ Hpos) as Hq. split.
    + apply Qle_shift_div_l; [done|]. rewrite Qmult_0_l.
      unfold Qle. simpl. lia.
    + apply Qle_shift_div_r; [done|]. rewrite Qmult_1_l.
      by apply inject_nat_le.
  - intros Hne. rewrite bool_decide_eq_true_2; [done|].
    destruct db; [done|simpl; lia].
  - by intros ->.
Qed.

Lemma sql_avg_None (column : list (option Q)) :
  sql_avg column = None ↔ Forall (λ v, v = None) column.
Proof.
  unfold sql_avg. split.
  - intros Havg. destruct (omap id column) as [|v vs] eqn:Hv; [|done].
    apply Forall_forall. intros [x|] Hx; [|done].
    assert (x ∈ omap id column) as Hin
      by (apply list_elem_of_omap; by exists (Some x)).
    rewrite Hv in Hin. inversion Hin.
  - intros Hall. assert (omap id column = []) as ->; [|done].
    induction Hall as [|v l -> _ IH]; [done|]. exact IH.
Qed.

Lemma sql_avg_bounds (lo hi : Q) (column : list (option Q)) a :
  (∀ x, Some x ∈ column → lo <= x <= hi)%Q →
  sql_avg column = Some a → (lo <= a <= hi)%Q.
Proof.
  intros Hall. unfold sql_avg.
  destruct (omap id column) as [|v vs] eqn:Hv; [done|]. intros [= <-].
  apply mean_bounds; [done|]. rewrite <- Hv.
  apply Forall_forall. intros x Hx.
  apply list_elem_of_omap in Hx as (o & Ho & Hox). simpl in Hox. subst o.
  by apply Hall.
Qed.

(** X21. The average rating is absent exactly when no review has a rating
    (NULL ratings are left out of the average, not counted as 0), and
    bounds that hold for every rating hold for the average. *)
Theorem sentiment_summary_avg_rating (db : list ReviewRow) (lo hi : Z) :
  let s := sentiment_summary db in
  (avg_rating s = None ↔ Forall (λ r, rating (row r) = None) db)
  ∧ ((∀ r x, r ∈ db → rating (row r) = Some x → lo ≤ x ≤ hi) →
     ∀ a, avg_rating s = Some a → (inject_Z lo <= a <= inject_Z hi)%Q).
Proof.
  intros s. subst s. unfold sentiment_summary. cbn [avg_rating]. split.
  - rewrite sql_avg_None, Forall_fmap. apply Forall_iff. intros r. simpl.
    by destruct (rating (row r)).
  - intros Hall a. apply sql_avg_bounds. intros x Hx.
    apply list_elem_of_fmap in Hx as (r & Hrx & Hr).
    destruct (rating (row r)) as [z|] eqn:Hz; [|done].
    injection Hrx as ->. destruct (Hall r z Hr Hz).
    split; unfold Qle; simpl; lia.
Qed.

Lemma foldl_insert_lookup (rows : list (option str * nat))
    (row0 : option str * nat) (d : gmap str nat) :
  row0 ∈ rows →
  (∀ row, row ∈ rows → label_or_unknown row.1 = label_or_unknown row0.1 →
          row = row0) →
  foldl (λ d row, <[label_or_unknown row.1 := row.2]> d) d rows
    !! label_or_unknown row0.1 = Some row0.2.
Proof.
  induction rows as [|x rows IH] using rev_ind; [inversion 1|].
  intros Hin Huniq. rewrite foldl_app. cbn [foldl].
  destruct (decide (label_or_unknown x.1 = label_or_unknown row0.1)) as [Heq|Hne].
  - rewrite (Huniq x) by (by rewrite ?elem_of_app, ?list_elem_of_singleton; auto).
    apply lookup_insert_eq.
  - rewrite lookup_insert_ne by done. apply IH.
    + apply elem_of_app in Hin as [?|Hx]; [done|].
      apply list_elem_of_singleton in Hx as ->. done.
    + intros row Hrow. apply Huniq. apply elem_of_app. by left.
Qed.

Lemma foldl_insert_lookup_inv (rows : list (option str * nat)) k n :
  foldl (λ d row, <[label_or_unknown row.1 := row.2]> d) (∅ : gmap str nat) rows
    !! k = Some n →
  ∃ row, row ∈ rows ∧ label_or_unknown row.1 = k ∧ row.2 = n.
Proof.
  induction rows as [|x rows IH] using rev_ind;
    [cbn [foldl]; by rewrite lookup_empty|].
  rewrite foldl_app. cbn [foldl].
  destruct (decide (label_or_unknown x.1 = k)) as [<-|Hne].
  - rewrite lookup_insert_eq. intros [= <-]. exists x.
    split; [|done]. apply elem_of_app. right. by left.
  - rewrite lookup_insert_ne by done. intros (row & Hrow & ?)%IH.
    exists row. split; [|done]. apply elem_of_app. by left.
Qed.

(** X22. In [sentiment_counts] every count is at least 1 and at most the
    number of reviews, and the label of every review (or "UNKNOWN" for a
    NULL or empty one) is a key.  A label is reported with the number of
    reviews that carry it whenever no other label of the table falls on the
    same key. *)
Theorem sentiment_summary_counts (db : list ReviewRow) :
  let s := sentiment_summary db in
  (∀ k n, sentiment_counts s !! k = Some n →
          (1 ≤ n ≤ total_reviews s)%nat)
  ∧ (∀ r, r ∈ db →
          is_Some (sentiment_counts s !! label_or_unknown (sentiment_label r)))
  ∧ (∀ label, label ∈ sentiment_label <$> db →
       (∀ other, other ∈ sentiment_label <$> db →
                 label_or_unknown other = label_or_unknown label → other = label) →
       sentiment_counts s !! label_or_unknown label
       = Some (length (filter (λ r, sentiment_label r = label) db))).
Proof.
  intros s. subst s. unfold sentiment_summary.
  cbn [sentiment_counts total_reviews]. unfold sentiment_counts_of.
  assert (∀ label, label ∈ sentiment_label <$> db →
            (∀ other, other ∈ sentiment_label <$> db →
               label_or_unknown other = label_or_unknown label → other = label) →
            foldl (λ d row, <[label_or_unknown row.1 := row.2]> d) (∅ : gmap str nat)
              (label_groups db)
              !! label_or_unknown label
            = Some (length (filter (λ r, sentiment_label r = label) db))) as Hexact.
  { intros label Hl Huniq.
    apply (foldl_insert_lookup _
             (label, length (filter (λ r, sentiment_label r = label) db))).
    - unfold label_groups. apply list_elem_of_fmap. exists label.
      split; [done|]. by apply elem_of_remove_dups.
    - intros [other n] Hrow Hkey. unfold label_groups in Hrow.
      apply list_elem_of_fmap in Hrow as (other' & [= -> ->] & Hother).
      rewrite elem_of_remove_dups in Hother. simpl in Hkey.
      by rewrite (Huniq _ Hother Hkey). }
  split; [|split; [|exact Hexact]].
  - intros k n (row & Hrow & _ & <-)%foldl_insert_lookup_inv.
    unfold label_groups in Hrow.
    apply list_elem_of_fmap in Hrow as (label & -> & Hl).
    rewrite elem_of_remove_dups in Hl. apply list_elem_of_fmap in Hl as (r & -> & Hr).
    cbn [snd]. split; [|apply length_filter].
    destruct (filter _ db) as [|? ?] eqn:Hf; [|simpl; lia].
    by destruct (filter_nil_not_elem_of _ _ r Hf).
  - intros r Hr.
    set (k := label_or_unknown (sentiment_label r)).
    destruct (foldl _ ∅ (label_groups db) !! k) as [n|] eqn:Hk; [by eexists|].
    exfalso. revert Hk. unfold label_groups.
    assert (sentiment_label r ∈ remove_dups (sentiment_label <$> db)) as Hin.
    { apply elem_of_remove_dups, list_elem_of_fmap. by exists r. }
    revert Hin. generalize (remove_dups (sentiment_label <$> db)). intros labels.
    induction labels as [|x labels IH] using rev_ind; [inversion 1|].
    rewrite fmap_app, foldl_app. cbn [fmap list_fmap foldl fst snd].
    intros Hin. destruct (decide (label_or_unknown x = k)) as [<-|Hne].
    + by rewrite lookup_insert_eq.
    + rewrite lookup_insert_ne by done. apply IH.
      apply elem_of_app in Hin as [?|Hx]; [done|].
      apply list_elem_of_singleton in Hx. subst x. by destruct Hne.
Qed.

(** * Deleting rows *)

Lemma sql_eq_false (col : option Z) (v : Z) : sql_eq col v = false ↔ col ≠ Some v.
Proof.
  destruct col as [x|]; simpl; [|done].
  rewrite bool_decide_eq_false. naive_solver.
Qed.

Lemma filter_nil_Forall {A} (P : A → Prop) `{∀ x, Decision (P x)} (l : list A) :
  filter P l = [] ↔ Forall (λ x, ¬ P x) l.
Proof.
  split.
  - intros Hnil. apply Forall_forall. intros x Hx HP.
    by destruct (filter_nil_not_elem_of _ _ x Hnil HP).
  - induction 1 as [|x l Hx _ IH]; [done|].
    by rewrite filter_cons, decide_False.
Qed.

(** X23. [delete_user] raises 404 exactly when no user has the id, and
    then changes nothing.  Otherwise the user is gone and so is every
    review of that user; the other users and the reviews of other users
    (and those without a user) stay as they were, in their order; and a
    second call with the same id raises 404. *)
Theorem delete_user_cascade (uid : Z) (db : database) :
  match delete_user uid db with
  | HTTPException code _ =>
      code = 404 ∧ Forall (λ u, u_id u ≠ uid) (users db)
  | Ok (db', _) =>
      Exists (λ u, u_id u = uid) (users db)
      ∧ users db' = filter (λ u, u_id u ≠ uid) (users db)
      ∧ reviews db' = filter (λ r, user_id r ≠ Some uid) (reviews db)
      ∧ Forall (λ u, u_id u ≠ uid) (users db')
      ∧ Forall (λ r, user_id r ≠ Some uid) (reviews db')
      ∧ delete_user uid db' = HTTPException 404 "User tidak ditemukan."
  end.
Proof.
  unfold delete_user.
  destruct (filter (λ u, u_id u = uid) (users db)) as [|user found] eqn:Hf.
  - split; [done|]. by apply filter_nil_Forall in Hf.
  - assert (user ∈ filter (λ u, u_id u = uid) (users db)) as Hu
      by (rewrite Hf; left).
    apply list_elem_of_filter in Hu as [Hid Hu]. rewrite Hid.
    cbn [users reviews].
    assert (filter (λ r, sql_eq (user_id r) uid = false) (reviews db)
            = filter (λ r, user_id r ≠ Some uid) (reviews db)) as ->
      by (apply list_filter_iff; intros r; apply sql_eq_false).
    assert (Forall (λ u, u_id u ≠ uid) (filter (λ u, u_id u ≠ uid) (users db))) as Hgone
      by (apply Forall_forall; by intros u [? _]%list_elem_of_filter).
    split; [apply Exists_exists; eauto|].
    repeat split; try done.
    + apply Forall_forall. by intros r [? _]%list_elem_of_filter.
    + by rewrite (proj2 (filter_nil_Forall (λ u, u_id u = uid) _)).
Qed.

(** X24. [delete_review] raises 404 exactly when no review has the id.
    Otherwise that review is gone, every other review and every user stays
    as it was, and a second call with the same id raises 404. *)
Theorem delete_review_once (rid : Z) (db : database) :
  match delete_review rid db with
  | HTTPException code _ =>
      code = 404 ∧ Forall (λ r, review_id (row r) ≠ rid) (reviews db)
  | Ok (db', _) =>
      Exists (λ r, review_id (row r) = rid) (reviews db)
      ∧ users db' = users db
      ∧ reviews db' = filter (λ r, review_id (row r) ≠ rid) (reviews db)
      ∧ Forall (λ r, review_id (row r) ≠ rid) (reviews db')
      ∧ delete_review rid db' = HTTPException 404 "Review tidak ditemukan."
  end.
Proof.
  unfold delete_review.
  destruct (filter (λ r, review_id (row r) = rid) (reviews db))
    as [|review found] eqn:Hf.
  - split; [done|]. by apply filter_nil_Forall in Hf.
  - assert (review ∈ filter (λ r, review_id (row r) = rid) (reviews db)) as Hr
      by (rewrite Hf; left).
    apply list_elem_of_filter in Hr as [Hid Hr]. rewrite Hid.
    cbn [users reviews].
    assert (Forall (λ r, review_id (row r) ≠ rid)
              (filter (λ r, review_id (row r) ≠ rid) (reviews db))) as Hgone
      by (apply Forall_forall; by intros r [? _]%list_elem_of_filter).
    split; [apply Exists_exists; eauto|].
    repeat split; try done.
    by rewrite (proj2 (filter_nil_Forall (λ r, review_id (row r) = rid) _)).
Qed.

(** * The CSV import *)

Section ImportFacts.
Variable isspace : N → bool.

Notation name_of := (row_username isspace).
Notation collected := (collect_user_info isspace).
Notation first_of := (first_value isspace).
Notation stripped := (strip isspace).

Lemma head_app_or {A} (l1 l2 : list A) :
  head (l1 ++ l2) = match head l1 with Some x => Some x | None => head l2 end.
Proof. by destruct l1. Qed.

Lemma user_info_update_keys name city province (info : user_info) :
  (user_info_update name city province info).*1
  = if decide (name ∈ info.*1) then info.*1 else info.*1 ++ [name].
Proof.
  induction info as [|[name' [c p]] info IH].
  - destruct (decide (name ∈ ([] : user_info).*1)) as [Hin|_];
      [inversion Hin|reflexivity].
  - cbn [user_info_update]. rewrite !fmap_cons. cbn [fst].
    destruct (decide (name' = name)) as [->|Hne].
    + rewrite fmap_cons, decide_True; [reflexivity|]. apply elem_of_cons; auto.
    + rewrite fmap_cons, IH. cbn [fst].
      destruct (decide (name ∈ info.*1)) as [Hin|Hin].
      * rewrite decide_True; [reflexivity|]. apply elem_of_cons; auto.
      * rewrite decide_False; [reflexivity|].
        intros [?|?]%elem_of_cons; congruence.
Qed.

Lemma user_info_update_elem name city province (info : user_info) name' v' :
  NoDup info.*1 →
  (name', v') ∈ user_info_update name city province info →
  (name' ≠ name ∧ (name', v') ∈ info)
  ∨ (name' = name ∧ (name ∉ info.*1) ∧ v' = (city, province))
  ∨ (name' = name
     ∧ ∃ c0 p0, (name, (c0, p0)) ∈ info
                ∧ v' = (match c0 with None => city | Some _ => c0 end,
                        match p0 with None => province | Some _ => p0 end)).
Proof.
  induction info as [|[n0 [c0 p0]] info IH]; intros Hnd Hin.
  - apply list_elem_of_singleton in Hin as [= -> ->].
    right. left. repeat split. apply not_elem_of_nil.
  - rewrite fmap_cons in Hnd. apply NoDup_cons in Hnd as [Hn0 Hnd].
    cbn [user_info_update] in Hin. cbn [fst] in Hn0.
    destruct (decide (n0 = name)) as [->|Hne].
    + apply elem_of_cons in Hin as [[= -> ->]|Hin].
      * right. right. split; [done|]. exists c0, p0. split; [left|done].
      * left. split; [|by right]. intros ->. apply Hn0.
        apply list_elem_of_fmap. by exists (name, v').
    + apply elem_of_cons in Hin as [[= -> ->]|Hin].
      * left. split; [done|left].
      * destruct (IH Hnd Hin) as [[? ?]|[(-> & Hnew & ->)|(-> & c1 & p1 & Hold & ->)]].
        -- left. split; [done|by right].
        -- right. left. repeat split. rewrite fmap_cons. cbn [fst].
           intros [?|?]%elem_of_cons; congruence.
        -- right. right. split; [done|]. exists c1, p1. split; [by right|done].
Qed.

Lemma first_value_snoc column (rows : list csv_row) r name :
  first_of column (rows ++ [r]) name
  = match first_of column rows name with
    | Some x => Some x
    | None => if decide (name_of r = name) then column r else None
    end.
Proof.
  unfold first_value.
  rewrite filter_app, omap_app, head_app_or.
  destruct (head (omap column (filter _ rows))); [done|].
  rewrite filter_cons, filter_nil.
  destruct (decide (name_of r = name)); [|done].
  simpl. by destruct (column r).
Qed.

Lemma first_value_absent column (rows : list csv_row) name :
  (∀ r, r ∈ rows → name_of r ≠ name) → first_of column rows name = None.
Proof.
  intros Hall. unfold first_value.
  rewrite (proj2 (filter_nil_Forall (λ r, name_of r = name) rows)); [done|].
  apply Forall_forall. intros r Hr. by apply Hall.
Qed.

Lemma collect_user_info_spec (rows : list csv_row) :
  let info := collected rows in
  NoDup info.*1
  ∧ (∀ name, name ∈ info.*1 ↔ ∃ r, r ∈ rows ∧ name_of r = name)
  ∧ (∀ name city province, (name, (city, province)) ∈ info →
       city = first_of csv_user_city rows name
       ∧ province = first_of csv_user_province rows name).
Proof.
  induction rows as [|r rows IH] using rev_ind.
  - simpl. split; [constructor|]. split.
    + intros name. split; [inversion 1|]. intros (r & Hr & _). inversion Hr.
    + intros name city province Hin. inversion Hin.
  - destruct IH as (Hnd & Hkeys & Hvals). cbv zeta.
    unfold collect_user_info. rewrite foldl_app. cbn [foldl].
    fold (collected rows).
    set (info := collected rows) in *.
    split; [|split].
    + rewrite user_info_update_keys. destruct (decide (_ ∈ info.*1)); [done|].
      apply NoDup_app. split; [done|]. split; [|apply NoDup_singleton].
      intros x Hx ->%list_elem_of_singleton. contradiction.
    + intros name. rewrite user_info_update_keys.
      assert (name ∈ info.*1 ++ [name_of r]
              ↔ ∃ r0, r0 ∈ rows ++ [r] ∧ name_of r0 = name) as Happ.
      { rewrite elem_of_app, Hkeys, list_elem_of_singleton. split.
        - intros [(r0 & Hr0 & Hn)|Heq]; [|subst name].
          + exists r0. split; [|done]. apply elem_of_app. by left.
          + exists r. split; [|done]. apply elem_of_app. right. by left.
        - intros (r0 & Hr0 & Hn). apply elem_of_app in Hr0 as [Hr0|Hr0].
          + left. by exists r0.
          + apply list_elem_of_singleton in Hr0 as ->. by right. }
      destruct (decide (name_of r ∈ info.*1)) as [Hin|Hin]; [|done].
      rewrite <- Happ, elem_of_app, list_elem_of_singleton.
      split; [by left|]. intros [?|Heq]; [done|by subst].
    + intros name city province Hin. rewrite !first_value_snoc.
      apply user_info_update_elem in Hin; [|done].
      destruct Hin as [[Hne Hold]|[(-> & Hnew & Hv)|(-> & c0 & p0 & Hold & Hv)]].
      * destruct (Hvals _ _ _ Hold) as [-> ->].
        rewrite !decide_False by done.
        by destruct (first_of csv_user_city rows name),
                    (first_of csv_user_province rows name).
      * injection Hv as -> ->.
        assert (∀ r0, r0 ∈ rows → name_of r0 ≠ name_of r) as Habs.
        { intros r0 Hr0 Hn. apply Hnew, Hkeys. by exists r0. }
        rewrite !(first_value_absent _ _ _ Habs). by rewrite !decide_True.
      * injection Hv as -> ->.
        destruct (Hvals _ _ _ Hold) as [-> ->]. rewrite !decide_True by done.
        by destruct (first_of csv_user_city rows (name_of r)),
                    (first_of csv_user_province rows (name_of r)).
Qed.

(** X25. The import of the users does nothing when the table already has
    rows, and otherwise fails when the file lacks the user-name column.
    When it imports, there is one new user per distinct name of the file
    (a missing or blank name counts as "Unknown"), and the city and the
    province of a user are the first values that are not missing among the
    rows of that name: a later row never replaces a value. *)
Theorem import_users_first_values (count_users : nat) (has_username : bool)
    (rows : list csv_row) :
  match import_users_if_needed isspace count_users has_username rows with
  | Skipped => (0 < count_users)%nat
  | RuntimeError _ => count_users = 0%nat ∧ has_username = false
  | Imported new_users =>
      count_users = 0%nat ∧ has_username = true
      ∧ NoDup new_users.*1
      ∧ (∀ name, name ∈ new_users.*1 ↔ ∃ r, r ∈ rows ∧ row_username isspace r = name)
      ∧ (∀ name city province, (name, (city, province)) ∈ new_users →
           city = first_value isspace csv_user_city rows name
           ∧ province = first_value isspace csv_user_province rows name)
  end.
Proof.
  unfold import_users_if_needed. case_bool_decide as Hc; [done|].
  assert (count_users = 0%nat) as -> by lia.
  destruct has_username; simpl; [|done].
  split; [done|]. split; [done|]. apply collect_user_info_spec.
Qed.

(** X26. The product map gives, for a non-empty stripped name, the id of
    the first product of that name; later products of the same name do not
    replace it, and a product whose name is missing or blank is not in the
    map. *)
Theorem build_product_map_first (products : list ProductRow) (key : list N) :
  build_product_map isspace products !! key
  = if decide (key = []) then None
    else p_id <$> head (filter (λ p, strip isspace (default [] (p_name p)) = key)
                          products).
Proof.
  induction products as [|p products IH] using rev_ind.
  - unfold build_product_map. cbn [foldl]. rewrite lookup_empty.
    by destruct (decide (key = [])).
  - unfold build_product_map in *. rewrite foldl_app. cbn [foldl].
    set (m := foldl _ ∅ products) in *. cbv zeta.
    set (k := stripped (default [] (p_name p))).
    rewrite filter_app, head_app_or, filter_cons, filter_nil. fold k.
    destruct (decide (k = key)) as [Hk|Hk].
    + subst key. case_bool_decide as Hne; cbn [andb].
      * rewrite decide_False in IH |- * by done.
        case_bool_decide as Hnone.
        -- rewrite lookup_insert_eq. rewrite Hnone in IH.
           by destruct (head (filter _ products)).
        -- rewrite IH. destruct (head (filter _ products)) eqn:Hh; [done|].
           by rewrite IH in Hnone.
      * rewrite IH. by rewrite !decide_True.
    + assert ((if bool_decide (k ≠ []) && bool_decide (m !! k = None)
               then <[k:=p_id p]> m else m) !! key = m !! key) as ->.
      { destruct (_ && _); [by rewrite lookup_insert_ne|done]. }
      rewrite IH. destruct (decide (key = [])); [done|].
      by destruct (head (filter _ products)).
Qed.

End ImportFacts.

(** ** The routers and the import on the sample data *)

(** The reviews of product 7 rated 4 or more, first page. *)
Lemma list_reviews_page_witness :
  (0%nat = 0%nat
   ∧ (length (filter (λ r, list_reviews_filter (Some 7%Z) None (Some 4%Z) None r)
                sample_rows) ≤ 10)%nat)
  ∧ list_reviews sample_rows (Some 7) None (Some 4) None 10 0
    ≡ₚ filter (λ r, list_reviews_filter (Some 7) None (Some 4) None r) sample_rows
  ∧ (review_id ∘ row) <$> list_reviews sample_rows (Some 7) None (Some 4) None 10 0
    = [1; 3].
Proof.
  assert (length (filter (λ r, list_reviews_filter (Some 7%Z) None (Some 4%Z) None r)
                    sample_rows) ≤ 10)%nat as Hlen by (vm_compute; lia).
  split; [by split|]. split; [|reflexivity].
  exact (proj2 (proj2 (proj2
           (list_reviews_page sample_rows (Some 7) None (Some 4) None 10 0)))
           eq_refl Hlen).
Defined.

(** One of the three sample rows is sarcastic. *)
Lemma sentiment_summary_rate_witness :
  sample_rows ≠ []
  ∧ sarcasm_rate (sentiment_summary sample_rows)
    = (inject_Z (Z.of_nat (sarcasm_count (sentiment_summary sample_rows)))
       / inject_Z (Z.of_nat (total_reviews (sentiment_summary sample_rows))))%Q
  ∧ (sarcasm_rate (sentiment_summary sample_rows) == 1 # 3)%Q.
Proof.
  assert (sample_rows ≠ []) as Hne by discriminate.
  split; [exact Hne|]. split; [|reflexivity].
  exact (proj1 (proj2 (proj2 (sentiment_summary_rate sample_rows))) Hne).
Defined.

(** The sample ratings lie in 1..5, and so does their average. *)
Lemma sentiment_summary_avg_rating_witness :
  (∀ r x, r ∈ sample_rows → rating (row r) = Some x → 1 ≤ x ≤ 5)
  ∧ ∃ a, avg_rating (sentiment_summary sample_rows) = Some a
         ∧ (inject_Z 1 <= a <= inject_Z 5)%Q.
Proof.
  assert (∀ r x, r ∈ sample_rows → rating (row r) = Some x → 1 ≤ x ≤ 5) as Hall.
  { intros r x Hr Hx. unfold sample_rows in Hr.
    repeat (apply elem_of_cons in Hr as [->|Hr]; [injection Hx as <-; lia|]).
    inversion Hr. }
  split; [exact Hall|]. eexists. split; [reflexivity|].
  exact (proj2 (sentiment_summary_avg_rating sample_rows 1 5) Hall _ eq_refl).
Defined.

(** Two sample rows are labelled "positive", and no other label of the
    sample falls on that key. *)
Lemma sentiment_summary_counts_witness :
  Some (py_str "positive") ∈ sentiment_label <$> sample_rows
  ∧ sentiment_counts (sentiment_summary sample_rows) !! py_str "positive"
    = Some 2%nat.
Proof.
  assert (Some (py_str "positive") ∈ sentiment_label <$> sample_rows) as Hin
    by (vm_compute; left).
  split; [exact Hin|].
  apply (proj2 (proj2 (sentiment_summary_counts sample_rows))
           (Some (py_str "positive")) Hin).
  intros other Hother Hkey. unfold sample_rows in Hother.
  rewrite !fmap_cons in Hother. cbn [sentiment_label] in Hother.
  repeat (apply elem_of_cons in Hother as [->|Hother]; [done|]).
  inversion Hother.
Defined.

(** A NULL label and an empty label fall on the key "UNKNOWN": one of the
    two counts replaces the other, and the counts no longer add up to the
    number of reviews. *)
Example sentiment_counts_clash :
  let db :=
    [ {| row := review_nice; product_id := None; user_id := None;
         sentiment_label := None; subjectivity := None |};
      {| row := review_great; product_id := None; user_id := None;
         sentiment_label := None; subjectivity := None |};
      {| row := review_noisy; product_id := None; user_id := None;
         sentiment_label := Some []; subjectivity := None |} ] in
  total_reviews (sentiment_summary db) = 3%nat
  ∧ ∃ n, map_to_list (sentiment_counts (sentiment_summary db))
         = [(py_str "UNKNOWN", n)]
         ∧ (n < 3)%nat.
Proof. split; [reflexivity|]. eexists. split; [by vm_compute|lia]. Qed.

(** Deleting user 10 of the sample removes the two reviews of that user. *)
Example delete_user_sample :
  ∃ db' message,
    delete_user 10 sample_database = Ok (db', message)
    ∧ u_id <$> users db' = [11]
    ∧ (review_id ∘ row) <$> reviews db' = [3]
    ∧ message = "User 10 dan semua review-nya sudah dihapus."%string.
Proof. eexists _, _. by vm_compute. Qed.

(** The sample file gives two users: "ana" with the city of her second row
    and the province of her first, and "Unknown" for the blank and the
    missing name. *)
Example import_users_sample :
  import_users_if_needed latin1_isspace 0 true sample_csv
  = Imported
      [ (py_str "ana", (Some (py_str "Ubud"), Some (py_str "Bali")));
        (py_str "Unknown", (Some (py_str "Solo"), None)) ]
  ∧ import_users_if_needed latin1_isspace 3 false sample_csv = Skipped.
Proof. by vm_compute. Qed.

(** " Grand Hotel " and "Grand Hotel" are one key; the first product keeps
    it. *)
Example build_product_map_sample :
  map_to_list (build_product_map latin1_isspace sample_products)
  = [(py_str "Grand Hotel", 1)].
Proof. by vm_compute. Qed.

(** X27. On ASCII text the letter count is the number of the characters
    A to Z and a to z: digits, the underscore, blanks and punctuation are
    not counted (the defect of C5 needs a numeric character outside
    ASCII). *)
Theorem count_letters_ascii_alphabet (s : str) :
  Forall (λ c, c < 128)%N s →
  count_letters (Some s) = length (filter (λ c, ascii_letter c) s).
Proof.
  intros Hs.
  assert (Forall (λ n, letter_class (Z.to_N n) = ascii_letter (Z.to_N n))
            (seqZ 0 128)) as Hall.
  { apply (bool_decide_unpack _). by vm_compute. }
  assert (∀ c, (c < 128)%N → letter_class c = ascii_letter c) as Hclass.
  { intros c Hc. rewrite <- (N2Z.id c).
    apply (proj1 (Forall_forall _ _) Hall). apply elem_of_seqZ. lia. }
  destruct s as [|c0 s0]; [reflexivity|].
  unfold count_letters, findall_letters.
  generalize dependent (c0 :: s0). clear c0 s0.
  induction 1 as [|c s Hc _ IH]; [reflexivity|].
  rewrite !filter_cons, (Hclass c Hc).
  destruct (decide (ascii_letter c)); simpl; by rewrite IH.
Qed.

(** "Room_205 was great!": twelve letters. *)
Lemma count_letters_ascii_alphabet_witness :
  Forall (λ c, c < 128)%N (py_str "Room_205 was great!")
  ∧ count_letters (Some (py_str "Room_205 was great!")) = 12%nat.
Proof.
  assert (Forall (λ c, c < 128)%N (py_str "Room_205 was great!")) as Hascii
    by (repeat constructor).
  split; [exact Hascii|].
  exact (count_letters_ascii_alphabet (py_str "Room_205 was great!") Hascii).
Defined.
